(** * K-fold cross-validation, the explicit way

    A shallow embedding of the notebook cell "K-folds the explicit way"
    (courses/ml_intro/12_validation): the index list, its shuffle, the
    per-fold train/test index construction and the fit/score loop.

    Python lists are Rocq lists, Python [set]s of indices are [gset nat],
    the process-wide random generator and the estimator object are
    explicit pieces of state.  The number of folds [K] (the literal [5]
    of the cell) and the data [items], [age] are parameters. *)

From stdpp Require Import base list sets gmap sorting.

Set Default Proof Using "Type".

(** ** The runtime the cell relies on *)

(** The generator behind [random.shuffle]: the module-level functions of
    [random] are bound to one hidden generator shared by the whole
    process.  Its state is threaded explicitly; [randbelow n g] is
    [_randbelow(n)], an integer in [range(n)] together with the advanced
    state. *)
Class RandomSource := {
  Rng : Type;
  randbelow : nat → Rng → nat * Rng;
  randbelow_lt n g : 0 < n → (randbelow n g).1 < n;
}.

(** [list(s)] for a set [s] of integers: the elements of [s], each once,
    in an iteration order the language leaves open. *)
Class SetIteration := {
  list_of_set : gset nat → list nat;
  list_of_set_perm s : list_of_set s ≡ₚ elements s;
}.

(** ** [random.shuffle] *)

(** [x[i], x[j] = x[j], x[i]].  Both reads happen before the writes; an
    index out of range raises [IndexError] in Python, which [shuffle]
    never triggers since [j ≤ i < len(x)]: the list is then left as is. *)
Definition swap (x : list nat) (i j : nat) : list nat :=
  match x !! i, x !! j with
  | Some xi, Some xj => <[j := xi]> (<[i := xj]> x)
  | _, _ => x
  end.

(** [for i in reversed(range(1, len(x))): j = randbelow(i+1); swap]. *)
Fixpoint shuffle_from `{RandomSource} (i : nat) (x : list nat) (g : Rng)
  : list nat * Rng :=
  match i with
  | 0 => (x, g)
  | S i' =>
      let '(j, g') := randbelow (i + 1) g in
      shuffle_from i' (swap x i j) g'
  end.

Definition shuffle `{RandomSource} (x : list nat) (g : Rng) : list nat * Rng :=
  shuffle_from (length x - 1) x g.

(** ** Fold construction (the first two statements of the loop body) *)

(** [enumerate(inds)] *)
Definition enumerate {A} (l : list A) : list (nat * A) := imap pair l.

(** [train = [x for (i, x) in enumerate(inds) if i % K != k]].
    Inside the loop [k ∈ range(K)], hence [K ≥ 1] and [%] never divides
    by zero. *)
Definition train_indices (K k : nat) (inds : list nat) : list nat :=
  (filter (λ ix : nat * nat, ix.1 mod K ≠ k) (enumerate inds)).*2.

(** [set(inds) - set(train)] *)
Definition test_set (K k : nat) (inds : list nat) : gset nat :=
  list_to_set inds ∖ list_to_set (train_indices K k inds).

(** [test = list(set(inds) - set(train))] *)
Definition test_indices `{SetIteration} (K k : nat) (inds : list nat) : list nat :=
  list_of_set (test_set K k inds).

(** The [(train, test)] pair of fold [k]. *)
Definition fold_indices `{SetIteration} (K k : nat) (inds : list nat)
  : list nat * list nat :=
  (train_indices K k inds, test_indices K k inds).

(** [inds = list(range(n))] *)
Definition range (n : nat) : list nat := seq 0 n.

(** The pairs built by [for k in range(K)] over a given index list. *)
Definition kfolds `{SetIteration} (K : nat) (inds : list nat)
  : list (list nat * list nat) :=
  (λ k, fold_indices K k inds) <$> range K.

(** [inds = list(range(n)); shuffle(inds)] *)
Definition shuffled_indices `{RandomSource} (n : nat) (g : Rng) : list nat * Rng :=
  shuffle (range n) g.

(** The fold sequence of one run of the cell on [n] rows. *)
Definition fold_sequence `{RandomSource, SetIteration} (n K : nat) (g : Rng)
  : list (list nat * list nat) :=
  kfolds K (shuffled_indices n g).1.

(** ** The estimator and the data *)

(** What the cell uses of an estimator object: the constructor
    [LinearRegression()], [fit], which updates the object, and [score],
    which only reads it.  Either call may raise; a call that raises
    leaves the object as it was. *)
Class Estimator (Row Target : Type) := {
  Est : Type;
  Score : Type;
  EstError : Type;
  LinearRegression : Est;
  fit : Est → list Row → list Target → EstError + Est;
  score : Est → list Row → list Target → EstError + Score;
}.

Section Cell.
Context `{RandomSource, SetIteration}.
Context {Row Target : Type} `{!Estimator Row Target}.

(** The exceptions that can leave the cell. *)
Inductive exn :=
  | IndexError
  | EstimatorError (e : EstError).

Inductive outcome (A : Type) :=
  | Return (a : A)
  | Raise (e : exn).
Global Arguments Return {_} _.
Global Arguments Raise {_} _.

(** The objects the loop mutates. *)
Record cell := Cell {
  est : Est;
  train_r2 : list Score;
  test_r2 : list Score;
}.

(** Statements: they read and update the cell and may raise, in which
    case the cell stays as the statement left it. *)
Definition M (A : Type) : Type := cell → outcome A * cell.

Global Instance M_ret : MRet M := λ A a c, (Return a, c).
Global Instance M_bind : MBind M := λ A B f m c,
  match m c with
  | (Return a, c') => f a c'
  | (Raise e, c') => (Raise e, c')
  end.

Definition lift {A} (o : outcome A) : M A := λ c, (o, c).

(** [for a in l: body(a)] *)
Fixpoint for_ {A} (l : list A) (body : A → M unit) : M unit :=
  match l with
  | [] => mret ()
  | a :: l' => body a;; for_ l' body
  end.

(** [xs.iloc[idx]] for a list of positions: the rows at these
    positions, in the order given; [IndexError] when one is out of
    bounds. *)
Definition iloc {A} (xs : list A) (idx : list nat) : outcome (list A) :=
  match mapM (λ i, xs !! i) idx with
  | Some rows => Return rows
  | None => Raise IndexError
  end.

(** [est.fit(X, y)] *)
Definition est_fit (X : list Row) (y : list Target) : M unit := λ c,
  match fit (est c) X y with
  | inr e' => (Return (), Cell e' (train_r2 c) (test_r2 c))
  | inl err => (Raise (EstimatorError err), c)
  end.

(** [est.score(X, y)] *)
Definition est_score (X : list Row) (y : list Target) : M Score := λ c,
  match score (est c) X y with
  | inr r => (Return r, c)
  | inl err => (Raise (EstimatorError err), c)
  end.

(** [train_r2.append(r)], [test_r2.append(r)] *)
Definition train_r2_append (r : Score) : M unit := λ c,
  (Return (), Cell (est c) (train_r2 c ++ [r]) (test_r2 c)).
Definition test_r2_append (r : Score) : M unit := λ c,
  (Return (), Cell (est c) (train_r2 c) (test_r2 c ++ [r])).

Variable items : list Row.
Variable age : list Target.

(** The body of [for k in range(K)]. *)
Definition fold_body (K : nat) (inds : list nat) (k : nat) : M unit :=
  let train := train_indices K k inds in
  let test := test_indices K k inds in
  X_train ← lift (iloc items train);
  X_test ← lift (iloc items test);
  y_train ← lift (iloc age train);
  y_test ← lift (iloc age test);
  est_fit X_train y_train;;
  _train_r2 ← est_score X_train y_train;
  _test_r2 ← est_score X_test y_test;
  train_r2_append _train_r2;;
  test_r2_append _test_r2.

(** The loop, entered with the cell as the statements before it leave
    it: [train_r2 = []], [test_r2 = []], [est = LinearRegression()]. *)
Definition kfold_loop (K : nat) (inds : list nat) : outcome unit * cell :=
  for_ (range K) (fold_body K inds) (Cell LinearRegression [] []).

(** One run of the cell with [K] folds, started with the process-wide
    generator in state [g]: how the loop ended, the cell, and the
    generator as the run leaves it. *)
Definition run_cell (K : nat) (g : Rng) : outcome unit * cell * Rng :=
  let '(inds, g') := shuffled_indices (length items) g in
  (kfold_loop K inds, g').

(** The same loop with an estimator made anew in every fold
    ([est = LinearRegression()] moved into the body): what
    "a fresh estimator instance per fold" asks for.  It is not in the
    source and serves for comparison only. *)
Definition est_renew : M unit := λ c,
  (Return (), Cell LinearRegression (train_r2 c) (test_r2 c)).

Definition kfold_loop_fresh (K : nat) (inds : list nat) : outcome unit * cell :=
  for_ (range K) (λ k, est_renew;; fold_body K inds k)
    (Cell LinearRegression [] []).
End Cell.

(** ** The learning curve *)

(** Modelled from the spec: the learning-curve driver.  The notebook
    calls [learning_curve] of scikit-learn and holds no code of its own
    for it; what follows is the driver of the specification (its
    section 4.3) over the fold construction above: argument checks, the
    partition, then for every size of the schedule and every fold a
    fresh estimator fitted on the first [min(s, |train_j|)] entries of
    [train_j] and scored on that subset and on [test_j]. *)
Section LearningCurve.
Context `{RandomSource, SetIteration}.
Context {Row Target : Type} `{!Estimator Row Target}.

Inductive lc_error :=
  | InvalidArguments
  | EstimatorFailure (fold size : nat) (e : EstError).

(** [f] over a list, stopping at the first failure. *)
Fixpoint try_all {A B E} (f : A → E + B) (l : list A) : E + list B :=
  match l with
  | [] => inr []
  | a :: l' =>
      match f a with
      | inl e => inl e
      | inr b =>
          match try_all f l' with
          | inl e => inl e
          | inr bs => inr (b :: bs)
          end
      end
  end.

Fixpoint ascending (sizes : list nat) : bool :=
  match sizes with
  | s1 :: (s2 :: _) as rest => (s1 <=? s2) && ascending rest
  | _ => true
  end.

(** [n ≥ k ≥ 2], [len(X) = len(y)], and a non-empty ascending schedule
    of sizes within [[k, n]]. *)
Definition lc_valid (n m K : nat) (sizes : list nat) : bool :=
  (2 <=? K) && (K <=? n) && (m =? n) &&
  negb (length sizes =? 0) && ascending sizes &&
  forallb (λ s, (K <=? s) && (s <=? n)) sizes.

(** The partition of the driver: the index list shuffled by the
    call's generator, or in natural order. *)
Definition lc_partition (n K : nat) (shuffle_on : bool) (g : Rng)
  : list (list nat * list nat) :=
  kfolds K (if shuffle_on then (shuffled_indices n g).1 else range n).

(** The first [min(s, |train_j|)] entries of [train_j]. *)
Definition lc_train_subset (s : nat) (train : list nat) : list nat :=
  take (s `min` length train) train.

(** Row selection by index. *)
Definition select {A} (xs : list A) (idx : list nat) : list A :=
  omap (λ i, xs !! i) idx.

Variable X : list Row.
Variable y : list Target.

(** One cell of the matrices: a fresh estimator fitted on the subset
    and scored on the subset and on the test fold. *)
Definition lc_entry (s j : nat) (sub test : list nat)
  : lc_error + (Score * Score) :=
  match fit LinearRegression (select X sub) (select y sub) with
  | inl e => inl (EstimatorFailure j s e)
  | inr fitted =>
      match score fitted (select X sub) (select y sub) with
      | inl e => inl (EstimatorFailure j s e)
      | inr r_train =>
          match score fitted (select X test) (select y test) with
          | inl e => inl (EstimatorFailure j s e)
          | inr r_test => inr (r_train, r_test)
          end
      end
  end.

Definition lc_row (s : nat) (folds : list (list nat * list nat))
  : lc_error + list (Score * Score) :=
  try_all (λ jt : nat * (list nat * list nat),
             lc_entry s jt.1 (lc_train_subset s jt.2.1) jt.2.2)
          (enumerate folds).

(** The effective size reported for [s]: the smallest over the folds. *)
Definition lc_size_out (s : nat) (folds : list (list nat * list nat)) : nat :=
  foldr (λ tt m, length tt.1 `min` m) s folds.

Definition learning_curve (sizes : list nat) (K : nat) (shuffle_on : bool)
    (g : Rng)
  : lc_error + (list nat * list (list Score) * list (list Score)) :=
  if lc_valid (length X) (length y) K sizes then
    let folds := lc_partition (length X) K shuffle_on g in
    match try_all (λ s, lc_row s folds) sizes with
    | inl e => inl e
    | inr rows =>
        inr ((λ s, lc_size_out s folds) <$> sizes,
             (λ row, row.*1) <$> rows,
             (λ row, row.*2) <$> rows)
    end
  else inl InvalidArguments.
End LearningCurve.

(** ** Two concrete runtimes *)

(** A generator given by the tape of raw values it is going to produce;
    an exhausted tape keeps producing [0]. *)
Definition tape_randbelow (n : nat) (g : list nat) : nat * list nat :=
  match g with
  | [] => (0, [])
  | r :: g' => (r mod n, g')
  end.

Lemma tape_randbelow_lt n g : 0 < n → (tape_randbelow n g).1 < n.
Proof.
  intros Hn. destruct g as [|r g]; simpl; [done|].
  apply Nat.mod_upper_bound. lia.
Qed.

Definition TapeSource : RandomSource :=
  {| Rng := list nat; randbelow := tape_randbelow;
     randbelow_lt := tape_randbelow_lt |}.

(** Ascending iteration order and its reverse. *)
Definition sorted_list_of_set (s : gset nat) : list nat :=
  merge_sort (≤) (elements s).

Lemma sorted_list_of_set_perm s : sorted_list_of_set s ≡ₚ elements s.
Proof. apply merge_sort_Permutation. Qed.

Definition AscendingIteration : SetIteration :=
  {| list_of_set := sorted_list_of_set;
     list_of_set_perm := sorted_list_of_set_perm |}.

Lemma rev_sorted_list_of_set_perm s : reverse (sorted_list_of_set s) ≡ₚ elements s.
Proof. rewrite reverse_Permutation. apply sorted_list_of_set_perm. Qed.

Definition DescendingIteration : SetIteration :=
  {| list_of_set := λ s, reverse (sorted_list_of_set s);
     list_of_set_perm := rev_sorted_list_of_set_perm |}.

(** Three estimators over rows and targets that are numbers.

    [Incremental] keeps what it has learned: its state is the number of
    rows it has been fitted on since it was made, which [score] reports.

    [Strict] counts its fits and raises on an empty sample, in [fit] and
    in [score].

    [SampleSize] forgets on every fit: its state is the size of the
    last training sample; [score] adds the size of the scored sample. *)
Definition Incremental : Estimator nat nat :=
  {| Est := nat; Score := nat; EstError := unit;
     LinearRegression := 0;
     fit := λ e X _, inr (e + length X);
     score := λ e _ _, inr e |}.

Definition Strict : Estimator nat nat :=
  {| Est := nat; Score := nat; EstError := unit;
     LinearRegression := 0;
     fit := λ e X _, match X with [] => inl () | _ => inr (S e) end;
     score := λ e X _, match X with [] => inl () | _ => inr e end |}.

Definition SampleSize : Estimator nat nat :=
  {| Est := nat; Score := nat; EstError := unit;
     LinearRegression := 0;
     fit := λ _ X _, inr (length X);
     score := λ e X _, inr (e + length X) |}.

Local Example kfolds_try :
  @kfolds AscendingIteration 2 [3; 1; 2; 0] = [([1; 0], [2; 3]); ([3; 2], [0; 1])].
Proof. vm_compute. reflexivity. Qed.

Local Example shuffle_try :
  (@shuffle TapeSource [0; 1; 2; 3] [1; 1; 0]).1 = [2; 0; 3; 1].
Proof. vm_compute. reflexivity. Qed.

(** * Vocabulary of the statements *)

(** ** Index lists and fold sequences *)

(** Selecting pairs of [enumerate l] by their position. *)
Definition at_positions {A} (P : nat → Prop) `{!∀ p, Decision (P p)}
    (l : list A) : list A :=
  (filter (λ ix : nat * A, P ix.1) (enumerate l)).*2.

(** An index list as [shuffle] leaves it: the numbers below [n], each
    once, in some order. *)
Definition index_list (n : nat) (inds : list nat) : Prop :=
  inds ≡ₚ range n.

(** Among the positions [0..n-1], class [k] has [⌊n/K⌋] members, and
    one more when [k < n mod K]. *)
Definition class_size (n K k : nat) : nat :=
  n / K + (if decide (k < n mod K) then 1 else 0).

(** The set of the indices of a train or test list, and [{0..n-1}]. *)
Definition index_set (l : list nat) : gset nat := list_to_set l.
Definition all_indices (n : nat) : gset nat := set_seq 0 n.

Definition tests_of (folds : list (list nat * list nat)) : list (gset nat) :=
  (λ tt, index_set tt.2) <$> folds.

(** The test folds cover [{0..n-1}], no two of them meet, and in each
    fold train and test split [{0..n-1}]. *)
Record fold_partition (n K : nat) (folds : list (list nat * list nat)) : Prop := {
  fp_length : length folds = K;
  fp_cover : ⋃ tests_of folds = all_indices n;
  fp_disjoint i j ti tj :
    folds !! i = Some ti → folds !! j = Some tj → i ≠ j →
    index_set ti.2 ∩ index_set tj.2 = ∅;
  fp_train_test_disjoint j tt :
    folds !! j = Some tt → index_set tt.1 ∩ index_set tt.2 = ∅;
  fp_train_test_cover j tt :
    folds !! j = Some tt → index_set tt.1 ∪ index_set tt.2 = all_indices n;
}.

(** Fold [j] of [folds] follows the rule over the index list [inds]:
    its test fold holds exactly the entries of [inds] at the positions
    congruent to [j] modulo [K], its train fold the other entries. *)
Definition position_mod_rule (K : nat) (inds : list nat)
    (folds : list (list nat * list nat)) : Prop :=
  ∀ j, j < K →
    ∃ train test, folds !! j = Some (train, test) ∧
      (∀ x, x ∈ test ↔ ∃ p, inds !! p = Some x ∧ p mod K = j) ∧
      (∀ x, x ∈ train ↔ x ∈ inds ∧ x ∉ test).

Definition test_sizes (folds : list (list nat * list nat)) : list nat :=
  (λ tt, length tt.2) <$> folds.

(** Every test fold has [⌊n/K⌋] or [⌈n/K⌉] entries and two folds differ
    by at most one entry. *)
Definition balanced (n K : nat) (folds : list (list nat * list nat)) : Prop :=
  length folds = K ∧
  (∀ j s, test_sizes folds !! j = Some s → s = n / K ∨ s = (n + K - 1) / K) ∧
  (∀ i j si sj,
     test_sizes folds !! i = Some si → test_sizes folds !! j = Some sj →
     si ≤ sj + 1 ∧ sj ≤ si + 1).

(** Test fold [j] holds exactly the indices [i < n] with [i mod K = j]. *)
Definition identity_partition (n K : nat)
    (folds : list (list nat * list nat)) : Prop :=
  ∀ j, j < K →
    ∃ train test, folds !! j = Some (train, test) ∧
      ∀ i, i ∈ test ↔ i < n ∧ i mod K = j.

(** ** The draws of a shuffle *)

(** The values a generator returns for a list of successive requests
    [randbelow(b)], and the generator afterwards. *)
Fixpoint draws `{RandomSource} (bounds : list nat) (g : Rng) : list nat * Rng :=
  match bounds with
  | [] => ([], g)
  | b :: bs =>
      let '(j, g') := randbelow b g in
      let '(js, g'') := draws bs g' in
      (j :: js, g'')
  end.

(** The requests of [shuffle_from i]: [i+1, i, ..., 2]. *)
Fixpoint shuffle_bounds (i : nat) : list nat :=
  match i with
  | 0 => []
  | S i' => (i + 1) :: shuffle_bounds i'
  end.

(** The swaps of [shuffle_from i] for given draws. *)
Fixpoint swaps_from (i : nat) (js : list nat) (x : list nat) : list nat :=
  match i, js with
  | S i', j :: js' => swaps_from i' js' (swap x i j)
  | _, _ => x
  end.

(** ** Passes of the loop *)

Section passes.
Context `{SetIteration}.
Context {Row Target : Type} `{!Estimator Row Target}.
Variable items : list Row.
Variable age : list Target.

(** The cell after the first [j] passes of the loop. *)
Definition after_folds (K : nat) (inds : list nat) (j : nat)
  : outcome unit * cell :=
  for_ (seq 0 j) (fold_body items age K inds) (Cell LinearRegression [] []).

(** One pass: either every call returns and the cell gets the fitted
    estimator and one more score in each list, or some call raises
    and no score is appended. *)
Inductive pass_spec (K : nat) (inds : list nat) (k : nat) (c : cell)
  : outcome unit * cell → Prop :=
  | pass_returns X_train X_test y_train y_test e' r_train r_test :
      iloc items (train_indices K k inds) = Return X_train →
      iloc items (test_indices K k inds) = Return X_test →
      iloc age (train_indices K k inds) = Return y_train →
      iloc age (test_indices K k inds) = Return y_test →
      fit (est c) X_train y_train = inr e' →
      score e' X_train y_train = inr r_train →
      score e' X_test y_test = inr r_test →
      pass_spec K inds k c
        (Return (), Cell e' (train_r2 c ++ [r_train]) (test_r2 c ++ [r_test]))
  | pass_raises e c' :
      train_r2 c' = train_r2 c → test_r2 c' = test_r2 c →
      pass_spec K inds k c (Raise e, c').

(** Pass [k], entered with the estimator in state [e0], selects its
    rows, fits the estimator to [e'] and measures [r_train] and
    [r_test] with the fitted estimator. *)
Definition pass_scores (K : nat) (inds : list nat) (k : nat)
    (e0 e' : Est) (r_train r_test : Score) : Prop :=
  ∃ X_train X_test y_train y_test,
    iloc items (train_indices K k inds) = Return X_train ∧
    iloc items (test_indices K k inds) = Return X_test ∧
    iloc age (train_indices K k inds) = Return y_train ∧
    iloc age (test_indices K k inds) = Return y_test ∧
    fit e0 X_train y_train = inr e' ∧
    score e' X_train y_train = inr r_train ∧
    score e' X_test y_test = inr r_test.

(** The estimator raises on no input. *)
Definition never_raises : Prop :=
  (∀ e X y, ∃ e', fit e X y = inr e') ∧ (∀ e X y, ∃ r, score e X y = inr r).

(** [fit] starts from scratch: what it learns does not depend on the
    state of the estimator it is called on. *)
Definition fit_from_scratch : Prop :=
  ∀ e1 e2 X y, fit e1 X y = fit e2 X y.

(** What a run reports: how the loop ended and the two score lists. *)
Definition scores_of (r : outcome unit * cell)
  : outcome unit * list Score * list Score :=
  (r.1, train_r2 r.2, test_r2 r.2).

End passes.

(** ** Shape of the learning-curve result *)

Section lc_shape.
Context {Row Target : Type} `{!Estimator Row Target}.
Variable X : list Row.
Variable y : list Target.

(** The matrices hold entry [(i, j)] measured for size [i] of the
    schedule and fold [j]. *)
Definition lc_shape (sizes : list nat) (folds : list (list nat * list nat))
    (res : list nat * list (list Score) * list (list Score)) : Prop :=
  let '(sizes_out, train_matrix, test_matrix) := res in
  length sizes_out = length sizes ∧
  length train_matrix = length sizes ∧ length test_matrix = length sizes ∧
  Forall (λ row, length row = length folds) train_matrix ∧
  Forall (λ row, length row = length folds) test_matrix ∧
  ∀ i s j tt, sizes !! i = Some s → folds !! j = Some tt →
    ∃ r_train r_test,
      lc_entry X y s j (lc_train_subset s tt.1) tt.2 = inr (r_train, r_test) ∧
      train_matrix !! i ≫= (.!! j) = Some r_train ∧
      test_matrix !! i ≫= (.!! j) = Some r_test.

End lc_shape.

(** * Properties *)

(** ** Lists and positions *)

Section positions.
Context {A : Type}.
Implicit Types l : list A.

Lemma enumerate_lookup l i : enumerate l !! i = pair i <$> l !! i.
Proof. apply list_lookup_imap. Qed.

Lemma enumerate_elem_of l i x : (i, x) ∈ enumerate l ↔ l !! i = Some x.
Proof.
  unfold enumerate. rewrite elem_of_lookup_imap. split.
  - intros (i' & x' & [= -> ->] & Hl). done.
  - intros Hl. eauto.
Qed.

Lemma enumerate_snd l : (enumerate l).*2 = l.
Proof.
  unfold enumerate. rewrite fmap_imap.
  induction l as [|x l IH] using rev_ind; [done|].
  rewrite imap_app, IH. done.
Qed.

Lemma enumerate_fst l : (enumerate l).*1 = seq 0 (length l).
Proof.
  unfold enumerate. rewrite fmap_imap.
  induction l as [|x l IH] using rev_ind; [done|].
  rewrite imap_app, IH, length_app, Nat.add_1_r, seq_S. simpl.
  by rewrite Nat.add_0_r.
Qed.

Section at_positions.
Context (P : nat → Prop) `{!∀ p, Decision (P p)}.

Lemma at_positions_elem_of l x :
  x ∈ at_positions P l ↔ ∃ p, l !! p = Some x ∧ P p.
Proof.
  unfold at_positions. rewrite list_elem_of_fmap. split.
  - intros ([p y] & -> & Hin). apply list_elem_of_filter in Hin as [HP Hin].
    apply enumerate_elem_of in Hin. eauto.
  - intros (p & Hl & HP). exists (p, x). split; [done|].
    apply list_elem_of_filter. split; [done|]. by apply enumerate_elem_of.
Qed.

Lemma at_positions_sublist l : at_positions P l `sublist_of` l.
Proof.
  unfold at_positions. rewrite <-(enumerate_snd l) at 2.
  apply fmap_sublist, sublist_filter.
Qed.

Lemma at_positions_snoc l x :
  at_positions P (l ++ [x]) =
  at_positions P l ++ (if decide (P (length l)) then [x] else []).
Proof.
  unfold at_positions, enumerate. rewrite imap_app, filter_app, fmap_app.
  f_equal. simpl. rewrite Nat.add_0_r.
  rewrite filter_cons, filter_nil. simpl. by destruct (decide _).
Qed.

Lemma at_positions_length l :
  length (at_positions P l) = length (filter P (seq 0 (length l))).
Proof.
  induction l as [|x l IH] using rev_ind; [done|].
  rewrite at_positions_snoc, !length_app, IH. simpl.
  rewrite Nat.add_1_r, seq_S, filter_app, length_app. f_equal.
  simpl. rewrite filter_cons, filter_nil. by destruct (decide _).
Qed.

(** The selection read off the list of selected positions. *)
Lemma at_positions_lookup l :
  at_positions P l = omap (λ p, l !! p) (filter P (seq 0 (length l))).
Proof.
  induction l as [|x l IH] using rev_ind; [done|].
  rewrite at_positions_snoc, IH, length_app. simpl.
  rewrite Nat.add_1_r, seq_S, filter_app, omap_app. f_equal.
  - clear IH.
    assert (Hext : ∀ ps : list nat, Forall (λ p, p < length l) ps →
              omap (λ p, l !! p) ps = omap (λ p, (l ++ [x]) !! p) ps).
    { induction 1 as [|p ps Hp _ IHps]; [done|]. csimpl.
      rewrite lookup_app_l by done. by rewrite IHps. }
    apply Hext, Forall_forall. intros p Hp%list_elem_of_filter.
    destruct Hp as [_ Hp%elem_of_seq]. lia.
  - simpl. rewrite filter_cons, filter_nil.
    destruct (decide _); [|done]. simpl.
    rewrite lookup_app_r by done. by rewrite Nat.sub_diag.
Qed.
End at_positions.
End positions.

(** [train] is the selection of the positions outside class [k]. *)
Lemma train_indices_at_positions K k inds :
  train_indices K k inds = at_positions (λ p, p mod K ≠ k) inds.
Proof. done. Qed.

(** ** [shuffle] permutes *)

Lemma swap_length x i j : length (swap x i j) = length x.
Proof.
  unfold swap. destruct (x !! i), (x !! j); [|done..].
  by rewrite !length_insert.
Qed.

Lemma swap_lookup x i j p :
  i < length x → j < length x →
  swap x i j !! p =
  x !! (if decide (p = i) then j else if decide (p = j) then i else p).
Proof.
  intros Hi Hj. unfold swap.
  destruct (lookup_lt_is_Some_2 x i Hi) as [xi Hxi].
  destruct (lookup_lt_is_Some_2 x j Hj) as [xj Hxj].
  rewrite Hxi, Hxj.
  destruct (decide (p = j)) as [->|Hpj].
  - rewrite list_lookup_insert_eq by (by rewrite length_insert).
    destruct (decide (j = i)) as [->|]; [|done]. congruence.
  - rewrite list_lookup_insert_ne by done.
    destruct (decide (p = i)) as [->|Hpi].
    + by rewrite list_lookup_insert_eq.
    + by rewrite list_lookup_insert_ne.
Qed.

Lemma swap_Permutation x i j : swap x i j ≡ₚ x.
Proof.
  destruct (decide (i < length x ∧ j < length x)) as [[Hi Hj]|Hout].
  - apply Permutation_inj. split; [apply swap_length|].
    exists (λ p, if decide (p = i) then j else if decide (p = j) then i else p).
    split; [|intros p; by apply swap_lookup].
    intros p q. repeat case_decide; congruence.
  - unfold swap.
    destruct (x !! i) eqn:Hxi; [|done].
    destruct (x !! j) eqn:Hxj; [|done].
    apply lookup_lt_Some in Hxi, Hxj. tauto.
Qed.

Section shuffle.
Context `{RandomSource}.

Lemma shuffle_from_Permutation i x g : (shuffle_from i x g).1 ≡ₚ x.
Proof.
  revert x g. induction i as [|i IH]; intros x g; simpl; [done|].
  destruct (randbelow _ g) as [j g']. rewrite IH. apply swap_Permutation.
Qed.

Lemma shuffle_Permutation x g : (shuffle x g).1 ≡ₚ x.
Proof. apply shuffle_from_Permutation. Qed.

Lemma shuffled_indices_Permutation n g : (shuffled_indices n g).1 ≡ₚ range n.
Proof. apply shuffle_Permutation. Qed.

Lemma shuffled_indices_NoDup n g : NoDup (shuffled_indices n g).1.
Proof. rewrite shuffled_indices_Permutation. apply NoDup_seq. Qed.

Lemma shuffled_indices_length n g : length (shuffled_indices n g).1 = n.
Proof. rewrite shuffled_indices_Permutation. apply length_seq. Qed.

Lemma shuffled_indices_elem_of n g x : x ∈ (shuffled_indices n g).1 ↔ x < n.
Proof.
  rewrite shuffled_indices_Permutation. unfold range.
  rewrite elem_of_seq. lia.
Qed.

(** The swaps are really made with in-range positions: every draw
    [j = randbelow(i+1)] satisfies [j ≤ i]. *)
Lemma shuffle_draw_in_range i g : (randbelow (i + 1) g).1 ≤ i.
Proof. pose proof (randbelow_lt (i + 1) g). lia. Qed.
End shuffle.

(** ** What the folds contain *)

Lemma index_list_range n : index_list n (range n).
Proof. by unfold index_list. Qed.

Lemma index_list_shuffled `{RandomSource} n g :
  index_list n (shuffled_indices n g).1.
Proof. apply shuffled_indices_Permutation. Qed.

Lemma index_list_NoDup n inds : index_list n inds → NoDup inds.
Proof. unfold index_list. intros ->. apply NoDup_seq. Qed.

Lemma index_list_length n inds : index_list n inds → length inds = n.
Proof. unfold index_list. intros ->. apply length_seq. Qed.

Lemma index_list_elem_of n inds x : index_list n inds → x ∈ inds ↔ x < n.
Proof. unfold index_list, range. intros ->. rewrite elem_of_seq. lia. Qed.

Lemma train_indices_elem_of K k inds x :
  x ∈ train_indices K k inds ↔ ∃ p, inds !! p = Some x ∧ p mod K ≠ k.
Proof. rewrite train_indices_at_positions. apply at_positions_elem_of. Qed.

Lemma test_set_elem_of K k inds x :
  NoDup inds →
  x ∈ test_set K k inds ↔ ∃ p, inds !! p = Some x ∧ p mod K = k.
Proof.
  intros Hnd. unfold test_set.
  rewrite elem_of_difference, !elem_of_list_to_set, train_indices_elem_of.
  rewrite list_elem_of_lookup. split.
  - intros [[p Hp] Hnot]. exists p. split; [done|].
    destruct (decide (p mod K = k)); [done|]. destruct Hnot. eauto.
  - intros (p & Hp & Hk). split; [eauto|].
    intros (q & Hq & Hqk). by rewrite (NoDup_lookup _ _ _ _ Hnd Hq Hp) in Hqk.
Qed.

Section folds.
Context `{SetIteration}.

Lemma list_of_set_elem_of s x : x ∈ list_of_set s ↔ x ∈ s.
Proof. rewrite list_of_set_perm. apply elem_of_elements. Qed.

Lemma list_of_set_NoDup s : NoDup (list_of_set s).
Proof. rewrite list_of_set_perm. apply NoDup_elements. Qed.

Lemma test_indices_NoDup K k inds : NoDup (test_indices K k inds).
Proof. apply list_of_set_NoDup. Qed.

Lemma test_indices_elem_of K k inds x :
  NoDup inds →
  x ∈ test_indices K k inds ↔ ∃ p, inds !! p = Some x ∧ p mod K = k.
Proof.
  intros Hnd. unfold test_indices.
  by rewrite list_of_set_elem_of, test_set_elem_of.
Qed.

(** The test fold is the selection of the positions in class [k],
    in an order of its own. *)
Lemma test_indices_Permutation K k inds :
  NoDup inds →
  test_indices K k inds ≡ₚ at_positions (λ p, p mod K = k) inds.
Proof.
  intros Hnd. apply NoDup_Permutation.
  - apply test_indices_NoDup.
  - eapply sublist_NoDup; [exact Hnd|]. apply at_positions_sublist.
  - intros x. rewrite test_indices_elem_of by done.
    by rewrite at_positions_elem_of.
Qed.

Lemma kfolds_length K inds : length (kfolds K inds) = K.
Proof. unfold kfolds, range. by rewrite length_fmap, length_seq. Qed.

Lemma kfolds_lookup K inds k :
  k < K → kfolds K inds !! k = Some (fold_indices K k inds).
Proof.
  intros Hk. unfold kfolds, range.
  rewrite list_lookup_fmap, lookup_seq_lt by done. done.
Qed.

Lemma kfolds_lookup_Some K inds k tt :
  kfolds K inds !! k = Some tt ↔ k < K ∧ tt = fold_indices K k inds.
Proof.
  split.
  - intros Hl. assert (k < K) as Hk.
    { apply lookup_lt_Some in Hl. by rewrite kfolds_length in Hl. }
    rewrite kfolds_lookup in Hl by done. split; congruence.
  - intros [Hk ->]. by apply kfolds_lookup.
Qed.
End folds.

(** ** Counting the positions of a residue class *)

Lemma succ_div_mod K n :
  0 < K →
  (S n mod K = 0 ∧ S n / K = S (n / K) ∧ n mod K = K - 1) ∨
  (S n mod K = S (n mod K) ∧ S n / K = n / K ∧ n mod K < K - 1).
Proof.
  intros HK.
  pose proof (Nat.div_mod_eq n K) as Hn.
  pose proof (Nat.mod_upper_bound n K ltac:(lia)) as Hlt.
  destruct (decide (n mod K = K - 1)) as [Heq|Hne].
  - left. assert (S n = K * S (n / K) + 0) as HS by lia.
    split_and!; [|..|done].
    + symmetry. apply (Nat.mod_unique _ _ (S (n / K))); [lia|exact HS].
    + symmetry. apply (Nat.div_unique _ _ _ 0); [lia|exact HS].
  - right. assert (S n = K * (n / K) + S (n mod K)) as HS by lia.
    split_and!; [|..|lia].
    + symmetry. apply (Nat.mod_unique _ _ (n / K)); [lia|exact HS].
    + symmetry. apply (Nat.div_unique _ _ _ (S (n mod K))); [lia|exact HS].
Qed.

Lemma filter_mod_length K k n :
  k < K → length (filter (λ p, p mod K = k) (seq 0 n)) = class_size n K k.
Proof.
  intros Hk. unfold class_size. induction n as [|n IH].
  - simpl. rewrite Nat.Div0.div_0_l, Nat.Div0.mod_0_l.
    destruct (decide _); [lia|done].
  - rewrite seq_S, filter_app, length_app, IH. simpl.
    rewrite filter_cons, filter_nil.
    destruct (succ_div_mod K n ltac:(lia)) as [(-> & -> & Hm)|(-> & -> & Hm)];
      repeat (case_decide; simpl); lia.
Qed.

Lemma class_size_floor_ceil n K k :
  0 < K → class_size n K k = n / K ∨ class_size n K k = (n + K - 1) / K.
Proof.
  intros HK. unfold class_size. destruct (decide _) as [Hlt|]; [|lia].
  right. pose proof (Nat.div_mod_eq n K) as Hn.
  pose proof (Nat.mod_upper_bound n K ltac:(lia)) as Hup.
  apply (Nat.div_unique _ _ _ (n mod K - 1)); lia.
Qed.

Lemma class_size_close n K i j : class_size n K i ≤ class_size n K j + 1.
Proof. unfold class_size. repeat case_decide; lia. Qed.

Section fold_sizes.
Context `{SetIteration}.

Lemma test_indices_length n K k inds :
  index_list n inds → k < K →
  length (test_indices K k inds) = class_size n K k.
Proof.
  intros Hinds Hk.
  rewrite test_indices_Permutation by eauto using index_list_NoDup.
  rewrite at_positions_length, (index_list_length n inds) by done.
  by apply filter_mod_length.
Qed.

Lemma train_indices_length n K k inds :
  index_list n inds → k < K →
  length (train_indices K k inds) + class_size n K k = n.
Proof.
  intros Hinds Hk.
  rewrite train_indices_at_positions, at_positions_length.
  rewrite (index_list_length n inds) by done.
  rewrite <-(filter_mod_length K k n) by done.
  pose proof (filter_app_complement (λ p, p mod K = k) (seq 0 n)) as Hc.
  apply Permutation_length in Hc.
  rewrite length_app, length_seq in Hc. rewrite <-Hc at 3.
  apply Nat.add_comm.
Qed.
End fold_sizes.

(** ** Fold sequences as partitions *)

Section partition.
Context `{SetIteration}.

Lemma elem_of_all_indices n x : x ∈ all_indices n ↔ x < n.
Proof. unfold all_indices. rewrite elem_of_set_seq. lia. Qed.

Lemma elem_of_index_set l x : x ∈ index_set l ↔ x ∈ l.
Proof. apply elem_of_list_to_set. Qed.

Lemma index_set_list_of_set s : index_set (list_of_set s) = s.
Proof.
  apply set_eq. intros x. by rewrite elem_of_index_set, list_of_set_elem_of.
Qed.

Lemma index_position n inds x :
  index_list n inds → x < n → ∃ p, inds !! p = Some x.
Proof.
  intros Hinds Hx. apply list_elem_of_lookup.
  by apply (index_list_elem_of n).
Qed.

Lemma kfolds_partition n K inds :
  index_list n inds → 0 < K → fold_partition n K (kfolds K inds).
Proof.
  intros Hinds HK. pose proof (index_list_NoDup _ _ Hinds) as Hnd.
  split.
  - apply kfolds_length.
  - apply set_eq. intros x.
    rewrite elem_of_union_list, elem_of_all_indices. split.
    + intros (X & HX & Hx). unfold tests_of in HX.
      apply list_elem_of_fmap in HX as (tt & -> & Htt).
      apply list_elem_of_lookup in Htt as [j Hj].
      apply kfolds_lookup_Some in Hj as [_ ->]. simpl in Hx.
      apply elem_of_index_set, test_indices_elem_of in Hx as (p & Hp & _);
        [|done].
      apply (index_list_elem_of n inds); [done|].
      apply list_elem_of_lookup. eauto.
    + intros Hx. destruct (index_position n inds x Hinds Hx) as [p Hp].
      exists (index_set (test_indices K (p mod K) inds)). split.
      * unfold tests_of. apply list_elem_of_fmap.
        exists (fold_indices K (p mod K) inds). split; [done|].
        apply list_elem_of_lookup. exists (p mod K).
        apply kfolds_lookup, Nat.mod_upper_bound. lia.
      * apply elem_of_index_set, test_indices_elem_of; eauto.
  - intros i j ti tj [_ ->]%kfolds_lookup_Some [_ ->]%kfolds_lookup_Some Hij.
    apply set_eq. intros x.
    rewrite elem_of_intersection, !elem_of_index_set. simpl.
    rewrite !test_indices_elem_of by done.
    split; [|intros Hx; by apply not_elem_of_empty in Hx].
    intros [(p & Hp & Hpi) (q & Hq & Hqj)].
    rewrite (NoDup_lookup _ _ _ _ Hnd Hp Hq) in Hpi. congruence.
  - intros j tt [_ ->]%kfolds_lookup_Some. simpl. unfold test_indices.
    rewrite index_set_list_of_set. apply set_eq. intros x.
    unfold test_set. rewrite elem_of_intersection, elem_of_difference.
    fold (index_set (train_indices K j inds)).
    split; [by intros [? [_ ?]]|].
    intros Hx. by apply not_elem_of_empty in Hx.
  - intros j tt [_ ->]%kfolds_lookup_Some. simpl. unfold test_indices.
    rewrite index_set_list_of_set. apply set_eq. intros x.
    rewrite elem_of_union, elem_of_all_indices.
    unfold test_set. rewrite elem_of_difference. fold (index_set inds).
    fold (index_set (train_indices K j inds)).
    rewrite !elem_of_index_set, (index_list_elem_of n inds) by done.
    split.
    + intros [Htr|[? _]]; [|done].
      apply (index_list_elem_of n inds); [done|].
      assert (train_indices K j inds ⊆ inds) as Hsub; [|by apply Hsub].
      apply sublist_subseteq. rewrite train_indices_at_positions.
      apply at_positions_sublist.
    + intros Hx. destruct (decide (x ∈ train_indices K j inds)); eauto.
Qed.
End partition.

(** C1.  For every [n ≥ K ≥ 2] and every state of the generator, the
    cell's fold construction yields [K] folds whose test sets have union
    [{0..n-1}] and are pairwise disjoint, and in every fold the train set
    is the complement of the test set within [{0..n-1}]: the two are
    disjoint and their union is [{0..n-1}]. *)
Theorem fold_sequence_partition `{RandomSource, SetIteration}
    (n K : nat) (g : Rng) :
  2 ≤ K → K ≤ n → fold_partition n K (fold_sequence n K g).
Proof.
  intros HK _. apply kfolds_partition; [apply index_list_shuffled|lia].
Qed.

Lemma fold_sequence_partition_witness :
  fold_partition 10 5
    (@fold_sequence TapeSource AscendingIteration 10 5 [3; 1; 4; 1; 5; 9; 2; 6; 5]).
Proof. apply fold_sequence_partition; lia. Defined.

(** ** The position-mod-K rule *)

Lemma kfolds_position_mod_rule `{SetIteration} K inds :
  NoDup inds → position_mod_rule K inds (kfolds K inds).
Proof.
  intros Hnd j Hj. eexists _, _. split; [by apply kfolds_lookup|].
  split; [intros x; by apply test_indices_elem_of|].
  intros x. rewrite test_indices_elem_of, train_indices_elem_of by done.
  rewrite list_elem_of_lookup. split.
  - intros (p & Hp & Hpj). split; [eauto|].
    intros (q & Hq & Hqj). by rewrite (NoDup_lookup _ _ _ _ Hnd Hq Hp) in Hqj.
  - intros [[p Hp] Hnot]. exists p. split; [done|]. intros Hpj. eauto.
Qed.

(** C4.  Whatever the generator state, after the shuffle of the index
    list [inds], for every fold [j ∈ 0..K-1] the test fold consists
    exactly of the [inds[p]] with [p mod K = j] and the train fold is its
    complement in [inds]; the same holds for the loop over the index list
    in natural order. *)
Theorem fold_assignment_position_mod `{RandomSource, SetIteration}
    (n K : nat) (g : Rng) :
  position_mod_rule K (shuffled_indices n g).1 (fold_sequence n K g) ∧
  position_mod_rule K (range n) (kfolds K (range n)).
Proof.
  split; apply kfolds_position_mod_rule.
  - apply shuffled_indices_NoDup.
  - apply NoDup_seq.
Qed.

(** ** Balance *)

Section balance.
Context `{SetIteration}.

Lemma kfolds_test_sizes n K inds :
  index_list n inds → test_sizes (kfolds K inds) = class_size n K <$> range K.
Proof.
  intros Hinds. unfold test_sizes, kfolds. rewrite <-list_fmap_compose.
  apply list_fmap_ext. intros i k Hk. simpl.
  apply (test_indices_length n); [done|].
  unfold range in Hk. apply lookup_seq in Hk. lia.
Qed.

Lemma kfolds_test_sizes_lookup n K inds j s :
  index_list n inds →
  test_sizes (kfolds K inds) !! j = Some s → j < K ∧ s = class_size n K j.
Proof.
  intros Hinds. rewrite (kfolds_test_sizes n) by done. unfold range.
  rewrite list_lookup_fmap. intros Hj.
  destruct (seq 0 K !! j) as [k|] eqn:Hk; [|done].
  apply lookup_seq in Hk as [-> ?]. simpl in Hj. split; [done|congruence].
Qed.

Lemma kfolds_balanced n K inds :
  index_list n inds → 0 < K → balanced n K (kfolds K inds).
Proof.
  intros Hinds HK. split_and!.
  - apply kfolds_length.
  - intros j s [_ ->]%(kfolds_test_sizes_lookup n); [|done].
    by apply class_size_floor_ceil.
  - intros i j si sj [_ ->]%(kfolds_test_sizes_lookup n)
      [_ ->]%(kfolds_test_sizes_lookup n); [|done..].
    split; apply class_size_close.
Qed.
End balance.

(** C5.  For every [n ≥ K ≥ 2] the test folds are balanced, shuffled or
    not: each has [⌊n/K⌋] or [⌈n/K⌉] entries and any two differ by at most
    one.  For [n = 11], [K = 5] and the natural order the sizes are
    [3, 2, 2, 2, 2] and the test folds cover [{0..10}]. *)
Theorem test_folds_balanced `{RandomSource, SetIteration} (n K : nat) (g : Rng) :
  2 ≤ K → K ≤ n →
  balanced n K (fold_sequence n K g) ∧
  balanced n K (kfolds K (range n)) ∧
  (n = 11 → K = 5 →
     test_sizes (kfolds K (range n)) = [3; 2; 2; 2; 2] ∧
     test_sizes (fold_sequence n K g) = [3; 2; 2; 2; 2] ∧
     ⋃ tests_of (kfolds K (range n)) = all_indices 11).
Proof.
  intros HK _. split_and!.
  - apply kfolds_balanced; [apply index_list_shuffled|lia].
  - apply kfolds_balanced; [apply index_list_range|lia].
  - intros -> ->. split_and!.
    + by rewrite (kfolds_test_sizes 11) by apply index_list_range.
    + unfold fold_sequence.
      by rewrite (kfolds_test_sizes 11) by apply index_list_shuffled.
    + apply (fp_cover 11 5), kfolds_partition; [apply index_list_range|lia].
Qed.

Lemma test_folds_balanced_witness :
  test_sizes (@kfolds AscendingIteration 5 (range 11)) = [3; 2; 2; 2; 2].
Proof.
  apply (@test_folds_balanced TapeSource AscendingIteration 11 5 [7; 7; 7]);
    [lia|lia|reflexivity|reflexivity].
Defined.

(** ** Natural order *)

Lemma range_lookup_Some n p x : range n !! p = Some x ↔ x = p ∧ p < n.
Proof. unfold range. rewrite lookup_seq. simpl. tauto. Qed.

Lemma kfolds_range_identity `{SetIteration} n K :
  identity_partition n K (kfolds K (range n)).
Proof.
  intros j Hj. eexists _, _. split; [by apply kfolds_lookup|].
  intros i. rewrite test_indices_elem_of by apply NoDup_seq. split.
  - intros (p & [-> Hp]%range_lookup_Some & Hpj). done.
  - intros [Hi Hij]. exists i. by rewrite range_lookup_Some.
Qed.

(** The loop over the index list in natural order: test fold [j] holds
    the indices [i] with [i mod K = j]; for [n = 10], [K = 5] these are
    [{0,5}, {1,6}, {2,7}, {3,8}, {4,9}]. *)
Lemma natural_order_folds `{SetIteration} (n K : nat) :
  identity_partition n K (kfolds K (range n)) ∧
  tests_of (kfolds 5 (range 10)) =
    [{[0; 5]}; {[1; 6]}; {[2; 7]}; {[3; 8]}; {[4; 9]}].
Proof.
  split.
  - apply kfolds_range_identity.
  - unfold tests_of, kfolds. simpl. unfold test_indices.
    rewrite !index_set_list_of_set.
    repeat (f_equal; [by vm_compute|]). done.
Qed.

(** ** Order within the folds *)

(** C10.  For every fold [j] the train list keeps the relative order of
    the index list: it is the subsequence of [inds] read at the positions
    [p] with [p mod K ≠ j], in increasing [p].  The test list is the
    listing of a set difference: it holds the entries at the positions
    [p] with [p mod K = j], each once, in an order that depends on the
    iteration order of sets and need not be that of [inds]. *)
Theorem train_order_test_unordered (K j : nat) (inds : list nat) :
  train_indices K j inds `sublist_of` inds ∧
  train_indices K j inds =
    omap (λ p, inds !! p) (filter (λ p, p mod K ≠ j) (seq 0 (length inds))) ∧
  (∀ (I : SetIteration),
     test_indices K j inds =
       list_of_set (list_to_set inds ∖ list_to_set (train_indices K j inds))) ∧
  (∀ (I : SetIteration) (R : RandomSource) (n : nat) (g : Rng),
     let inds := (shuffled_indices n g).1 in
     test_indices K j inds ≡ₚ
       omap (λ p, inds !! p) (filter (λ p, p mod K = j) (seq 0 (length inds)))) ∧
  @test_indices AscendingIteration 2 0 [3; 1; 2; 0] = [2; 3] ∧
  @test_indices DescendingIteration 2 0 [3; 1; 2; 0] = [3; 2].
Proof.
  split_and!.
  - rewrite train_indices_at_positions. apply at_positions_sublist.
  - rewrite train_indices_at_positions. apply at_positions_lookup.
  - done.
  - intros I R n g inds'.
    rewrite test_indices_Permutation by apply shuffled_indices_NoDup.
    by rewrite at_positions_lookup.
  - by vm_compute.
  - by vm_compute.
Qed.

(** ** What the fold sequence depends on *)

Lemma shuffle_from_draws `{RandomSource} i x g :
  shuffle_from i x g =
  (swaps_from i (draws (shuffle_bounds i) g).1 x, (draws (shuffle_bounds i) g).2).
Proof.
  revert x g. induction i as [|i IH]; intros x g; [done|].
  cbn [shuffle_from shuffle_bounds draws].
  destruct (randbelow (S i + 1) g) as [j g']. rewrite IH.
  by destruct (draws (shuffle_bounds i) g') as [js g''].
Qed.

(** C3 (counterexample).  Two runs with the same [n] and [K], the second
    started in the same process with the generator as the first run left
    it, build different fold sequences. *)
Lemma fold_sequence_not_reproducible :
  let g1 : @Rng TapeSource := [1; 1; 0; 0; 0; 0] in
  let g2 : @Rng TapeSource := (@shuffled_indices TapeSource 4 g1).2 in
  @fold_sequence TapeSource AscendingIteration 4 2 g1
    = [([0; 1], [2; 3]); ([2; 3], [0; 1])] ∧
  @fold_sequence TapeSource AscendingIteration 4 2 g2
    = [([2; 0], [1; 3]); ([1; 3], [0; 2])] ∧
  @fold_sequence TapeSource AscendingIteration 4 2 g1
    ≠ @fold_sequence TapeSource AscendingIteration 4 2 g2.
Proof. by vm_compute. Qed.

(** C3 (amended).  The fold sequence is a function of [n], [K] and the
    [n - 1] values the process-wide generator returns to [shuffle] (for
    [randbelow(n), ..., randbelow(2)], in this order): two runs that
    are returned the same values, from whatever generators, build the
    same fold sequence.  A run leaves the generator advanced by these
    draws. *)
Theorem fold_sequence_determined_by_draws `{SetIteration}
    (R1 R2 : RandomSource) (n K : nat) (g1 : @Rng R1) (g2 : @Rng R2) :
  (draws (shuffle_bounds (n - 1)) g1).1 = (draws (shuffle_bounds (n - 1)) g2).1 →
  fold_sequence n K g1 = fold_sequence n K g2 ∧
  (shuffled_indices n g1).2 = (draws (shuffle_bounds (n - 1)) g1).2.
Proof.
  intros Hdraws. unfold fold_sequence, shuffled_indices, shuffle, range.
  rewrite length_seq, !shuffle_from_draws. simpl. by rewrite Hdraws.
Qed.

Lemma fold_sequence_determined_by_draws_witness :
  @fold_sequence TapeSource AscendingIteration 4 2 [1; 1; 0; 8]
  = @fold_sequence TapeSource AscendingIteration 4 2 [5; 4; 2].
Proof.
  apply (@fold_sequence_determined_by_draws AscendingIteration
           TapeSource TapeSource 4 2 [1; 1; 0; 8] [5; 4; 2]).
  reflexivity.
Defined.

(** ** The shuffle and the natural order *)

Lemma swap_same x i : swap x i i = x.
Proof.
  unfold swap. destruct (x !! i) as [xi|] eqn:Hi; [|done].
  rewrite list_insert_insert_eq. by apply list_insert_id.
Qed.

(** Draws [randbelow(i+1) = i] throughout swap every entry with itself. *)
Lemma swaps_from_own_positions i x : swaps_from i (reverse (seq 1 i)) x = x.
Proof.
  revert x. induction i as [|i IH]; intros x; [done|].
  rewrite seq_S, reverse_app. simpl. rewrite swap_same. apply IH.
Qed.

Lemma identity_partition_residues `{SetIteration} n K inds :
  0 < K → index_list n inds →
  identity_partition n K (kfolds K inds) ↔
  ∀ p x, inds !! p = Some x → x mod K = p mod K.
Proof.
  intros HK Hinds. pose proof (index_list_NoDup _ _ Hinds) as Hnd. split.
  - intros Hid p x Hp.
    assert (p mod K < K) as HpK by (apply Nat.mod_upper_bound; lia).
    destruct (Hid (p mod K) HpK) as (train & test & Hl & Hiff).
    apply kfolds_lookup_Some in Hl as [_ [= -> ->]].
    apply Hiff, test_indices_elem_of; eauto.
  - intros Hres j Hj. eexists _, _. split; [by apply kfolds_lookup|].
    intros i. rewrite test_indices_elem_of by done. split.
    + intros (p & Hp & Hpj). split.
      * apply (index_list_elem_of n inds); [done|].
        apply list_elem_of_lookup. eauto.
      * by rewrite (Hres p i Hp).
    + intros [Hi Hij]. destruct (index_position n inds i Hinds Hi) as [p Hp].
      exists p. split; [done|]. by rewrite <-(Hres p i Hp).
Qed.

(** C6 (counterexample).  The cell has no way to leave the shuffle out:
    on [n = 10] rows with [K = 5] a run shuffles the index list to
    [9, 6, 0, 2, 7, 5, 8, 4, 1, 3] and its test folds are
    [{5,9}, {6,8}, {0,4}, {1,2}, {3,7}], not [{0,5}, ..., {4,9}]. *)
Lemma shuffled_folds_not_identity :
  let g : @Rng TapeSource := [3; 1; 4; 1; 5; 9; 2; 6; 5] in
  (@shuffled_indices TapeSource 10 g).1 = [9; 6; 0; 2; 7; 5; 8; 4; 1; 3] ∧
  snd <$> @fold_sequence TapeSource AscendingIteration 10 5 g
    = [[5; 9]; [6; 8]; [0; 4]; [1; 2]; [3; 7]] ∧
  ¬ identity_partition 10 5
      (@fold_sequence TapeSource AscendingIteration 10 5 g).
Proof.
  split_and!; [by vm_compute..|].
  intros Hid. destruct (Hid 0 ltac:(lia)) as (train & test & Hl & Hiff).
  vm_compute in Hl. injection Hl as <- <-.
  destruct (proj1 (Hiff 9)) as [_ Hmod].
  - apply list_elem_of_lookup. by exists 1.
  - vm_compute in Hmod. discriminate.
Qed.

(** C6 (amended).  The cell always shuffles and the state of the
    generator matters: for [K ≥ 1], test fold [j] holds exactly the
    indices [i] with [i mod K = j] in those runs, and only those, whose
    shuffle leaves every index at a position congruent to it modulo [K].
    Such is a run whose shuffle leaves the list in natural order, as
    when every draw [randbelow(i+1)] returns [i]; for [n = 10], [K = 5]
    its test folds are [{0,5}, {1,6}, {2,7}, {3,8}, {4,9}]. *)
Theorem identity_partition_iff_residues_kept `{RandomSource, SetIteration}
    (n K : nat) (g : Rng) :
  0 < K →
  let inds := (shuffled_indices n g).1 in
  (identity_partition n K (fold_sequence n K g) ↔
   ∀ p x, inds !! p = Some x → x mod K = p mod K) ∧
  ((draws (shuffle_bounds (n - 1)) g).1 = reverse (seq 1 (n - 1)) →
   inds = range n ∧
   identity_partition n K (fold_sequence n K g) ∧
   (n = 10 → K = 5 →
    tests_of (fold_sequence n K g) =
      [{[0; 5]}; {[1; 6]}; {[2; 7]}; {[3; 8]}; {[4; 9]}])).
Proof.
  intros HK inds. split.
  - apply identity_partition_residues; [done|apply index_list_shuffled].
  - intros Hdraws.
    assert (inds = range n) as Hnat.
    { unfold inds, shuffled_indices, shuffle, range.
      rewrite length_seq, shuffle_from_draws. simpl.
      rewrite Hdraws. apply swaps_from_own_positions. }
    unfold fold_sequence. fold inds. rewrite Hnat. split_and!.
    + done.
    + apply kfolds_range_identity.
    + intros -> ->. apply (natural_order_folds 10 5).
Qed.

Lemma identity_partition_iff_residues_kept_witness :
  (@shuffled_indices TapeSource 10 [9; 8; 7; 6; 5; 4; 3; 2; 1]).1 = range 10 ∧
  tests_of (@fold_sequence TapeSource AscendingIteration 10 5
              [9; 8; 7; 6; 5; 4; 3; 2; 1]) =
    [{[0; 5]}; {[1; 6]}; {[2; 7]}; {[3; 8]}; {[4; 9]}].
Proof.
  destruct (@identity_partition_iff_residues_kept TapeSource AscendingIteration
              10 5 [9; 8; 7; 6; 5; 4; 3; 2; 1]) as [_ Hnat]; [lia|].
  destruct Hnat as (Hinds & _ & Hfolds); [reflexivity|].
  split; [exact Hinds|]. by apply Hfolds.
Defined.

(** ** The fit/score loop *)

Section loop.
Context `{RandomSource, SetIteration}.
Context {Row Target : Type} `{!Estimator Row Target}.
Variable items : list Row.
Variable age : list Target.

Lemma for_app {A} (l1 l2 : list A) (body : A → M unit) c :
  for_ (l1 ++ l2) body c =
  match for_ l1 body c with
  | (Return _, c') => for_ l2 body c'
  | (Raise e, c') => (Raise e, c')
  end.
Proof.
  revert c. induction l1 as [|a l1 IH]; intros c; [done|].
  simpl. unfold mbind, M_bind.
  destruct (body a c) as [[[]|e] c']; [apply IH|done].
Qed.

Lemma for_cons {A} (a : A) (l : list A) (body : A → M unit) c :
  for_ (a :: l) body c =
  match body a c with
  | (Return _, c') => for_ l body c'
  | (Raise e, c') => (Raise e, c')
  end.
Proof. done. Qed.

Lemma for_singleton {A} (a : A) (body : A → M unit) c :
  for_ [a] body c = body a c.
Proof.
  simpl. unfold mbind, M_bind, mret, M_ret.
  by destruct (body a c) as [[[]|e] c'].
Qed.

Lemma iloc_Return {A} (xs : list A) idx :
  Forall (λ i, i < length xs) idx →
  ∃ rows, iloc xs idx = Return rows ∧ length rows = length idx.
Proof.
  intros Hidx. unfold iloc.
  destruct (mapM (λ i, xs !! i) idx) as [rows|] eqn:Hrows.
  - exists rows. split; [done|]. symmetry. by eapply length_mapM.
  - assert (is_Some (mapM (λ i, xs !! i) idx)) as [? ?]; [|congruence].
    apply mapM_is_Some. eapply Forall_impl; [exact Hidx|].
    intros i Hi. by apply lookup_lt_is_Some_2.
Qed.

Lemma kfold_loop_after_folds K inds :
  kfold_loop items age K inds = after_folds items age K inds K.
Proof. done. Qed.

(** Pass [j] starts from the cell as pass [j - 1] left it. *)
Lemma after_folds_S K inds j :
  after_folds items age K inds (S j) =
  match after_folds items age K inds j with
  | (Return _, c) => fold_body items age K inds j c
  | (Raise e, c) => (Raise e, c)
  end.
Proof.
  unfold after_folds. rewrite seq_S, for_app. simpl.
  destruct (for_ _ _ _) as [[[]|e] c]; [apply for_singleton|done].
Qed.

Lemma fold_body_spec K inds k c :
  pass_spec items age K inds k c (fold_body items age K inds k c).
Proof.
  unfold fold_body, mbind, M_bind, lift, est_fit, est_score,
    train_r2_append, test_r2_append.
  destruct (iloc items (train_indices K k inds)) as [X_train|] eqn:?;
    [|by constructor].
  destruct (iloc items (test_indices K k inds)) as [X_test|] eqn:?;
    [|by constructor].
  destruct (iloc age (train_indices K k inds)) as [y_train|] eqn:?;
    [|by constructor].
  destruct (iloc age (test_indices K k inds)) as [y_test|] eqn:?;
    [|by constructor].
  destruct (fit (est c) X_train y_train) as [|e'] eqn:?; [by constructor|].
  simpl.
  destruct (score e' X_train y_train) as [|r1] eqn:?; [by constructor|].
  simpl.
  destruct (score e' X_test y_test) as [|r2] eqn:?; [by constructor|].
  simpl. by econstructor.
Qed.

(** After [j] passes each list holds one score per completed pass. *)
Lemma after_folds_lengths K inds j o c :
  after_folds items age K inds j = (o, c) →
  length (train_r2 c) = length (test_r2 c) ∧
  length (train_r2 c) ≤ j ∧
  (o = Return () → length (train_r2 c) = j) ∧
  (∀ e, o = Raise e → length (train_r2 c) < j).
Proof.
  revert o c. induction j as [|j IH]; intros o c.
  - intros [= <- <-]. simpl. split_and!; [done..|congruence].
  - rewrite after_folds_S.
    destruct (after_folds items age K inds j) as [[[]|e0] c0] eqn:Hj.
    + destruct (IH _ _ eq_refl) as (Heq & _ & Hret & _).
      specialize (Hret eq_refl).
      destruct (fold_body_spec K inds j c0) as [| e c' Htr Hte];
        intros [= <- <-]; simpl.
      * rewrite !length_app. simpl. split_and!; [lia..|congruence].
      * rewrite Htr, Hte. split_and!; [lia|lia|congruence|intros; lia].
    + destruct (IH _ _ eq_refl) as (Heq & Hle & _ & Hlt).
      specialize (Hlt _ eq_refl).
      intros [= <- <-]. split_and!; [lia|lia|congruence|intros; lia].
Qed.
End loop.

Section loop_results.
Context `{RandomSource, SetIteration}.
Context {Row Target : Type} `{!Estimator Row Target}.
Variable items : list Row.
Variable age : list Target.

Lemma fold_body_Return_inv K inds k c c' :
  fold_body items age K inds k c = (Return (), c') →
  ∃ e' r_train r_test,
    pass_scores items age K inds k (est c) e' r_train r_test ∧
    c' = Cell e' (train_r2 c ++ [r_train]) (test_r2 c ++ [r_test]).
Proof.
  intros Heq. pose proof (fold_body_spec items age K inds k c) as Hs.
  rewrite Heq in Hs.
  inversion Hs as [Xtr Xte ytr yte e' rt re H1 H2 H3 H4 H5 H6 H7|]; subst.
  exists e', rt, re. split; [by exists Xtr, Xte, ytr, yte|done].
Qed.

Lemma after_folds_Return_inv K inds j c' :
  after_folds items age K inds (S j) = (Return (), c') →
  ∃ c, after_folds items age K inds j = (Return (), c) ∧
       fold_body items age K inds j c = (Return (), c').
Proof.
  rewrite after_folds_S.
  destruct (after_folds items age K inds j) as [[[]|e] c]; [eauto|done].
Qed.

(** Entry [i] of each result list is the score measured in pass [i]. *)
Lemma after_folds_entries K inds j c i :
  after_folds items age K inds j = (Return (), c) → i < j →
  ∃ ci ci' r_train r_test,
    after_folds items age K inds i = (Return (), ci) ∧
    after_folds items age K inds (S i) = (Return (), ci') ∧
    pass_scores items age K inds i (est ci) (est ci') r_train r_test ∧
    train_r2 c !! i = Some r_train ∧ test_r2 c !! i = Some r_test.
Proof.
  revert c. induction j as [|j IH]; intros c Hc Hi; [lia|].
  destruct (after_folds_Return_inv _ _ _ _ Hc) as (c0 & Hc0 & Hbody).
  destruct (fold_body_Return_inv _ _ _ _ _ Hbody) as (e' & rt & re & Hp & ->).
  destruct (after_folds_lengths items age _ _ _ _ _ Hc0) as (Hlen & _ & Hj & _).
  specialize (Hj eq_refl).
  destruct (decide (i = j)) as [->|Hne].
  - exists c0, (Cell e' (train_r2 c0 ++ [rt]) (test_r2 c0 ++ [re])), rt, re.
    simpl. split_and!; [done..| |].
    + rewrite lookup_app_r by lia. by rewrite Hj, Nat.sub_diag.
    + rewrite lookup_app_r by lia. by rewrite <-Hlen, Hj, Nat.sub_diag.
  - destruct (IH c0 Hc0 ltac:(lia)) as (ci & ci' & rt' & re' & ? & ? & ? & Ht & He).
    exists ci, ci', rt', re'. simpl. split_and!; [done..| |].
    + rewrite lookup_app_l; [done|]. by eapply lookup_lt_Some.
    + rewrite lookup_app_l; [done|]. by eapply lookup_lt_Some.
Qed.

Lemma train_indices_in_range n K k inds :
  index_list n inds → Forall (λ i, i < n) (train_indices K k inds).
Proof.
  intros Hinds. apply Forall_forall. intros x Hx.
  apply train_indices_elem_of in Hx as (p & Hp & _).
  apply (index_list_elem_of n inds); [done|].
  apply list_elem_of_lookup. eauto.
Qed.

Lemma test_indices_in_range n K k inds :
  index_list n inds → Forall (λ i, i < n) (test_indices K k inds).
Proof.
  intros Hinds. apply Forall_forall. intros x Hx.
  unfold test_indices in Hx. apply list_of_set_elem_of in Hx.
  unfold test_set in Hx.
  apply elem_of_difference in Hx as [Hx%elem_of_list_to_set _].
  by apply (index_list_elem_of n inds).
Qed.

Lemma fold_body_returns K inds k c :
  never_raises → index_list (length items) inds → length items ≤ length age →
  ∃ c', fold_body items age K inds k c = (Return (), c').
Proof.
  intros [Hfit Hscore] Hinds Hage.
  pose proof (train_indices_in_range _ K k _ Hinds) as Htr.
  pose proof (test_indices_in_range _ K k _ Hinds) as Hte.
  destruct (iloc_Return items _ Htr) as (X_train & HXtr & _).
  destruct (iloc_Return items _ Hte) as (X_test & HXte & _).
  destruct (iloc_Return age (train_indices K k inds)) as (y_train & Hytr & _).
  { eapply Forall_impl; [exact Htr|]. simpl. lia. }
  destruct (iloc_Return age (test_indices K k inds)) as (y_test & Hyte & _).
  { eapply Forall_impl; [exact Hte|]. simpl. lia. }
  destruct (Hfit (est c) X_train y_train) as [e' He'].
  destruct (Hscore e' X_train y_train) as [rt Hrt].
  destruct (Hscore e' X_test y_test) as [re Hre].
  eexists.
  unfold fold_body, mbind, M_bind, lift, est_fit, est_score,
    train_r2_append, test_r2_append.
  rewrite HXtr, HXte, Hytr, Hyte, He'. simpl. rewrite Hrt. simpl.
  rewrite Hre. simpl. done.
Qed.

Lemma after_folds_returns K inds j :
  never_raises → index_list (length items) inds → length items ≤ length age →
  ∃ c, after_folds items age K inds j = (Return (), c).
Proof.
  intros Hnr Hinds Hage. induction j as [|j [c Hc]]; [by eexists|].
  rewrite after_folds_S, Hc. by apply fold_body_returns.
Qed.
End loop_results.

(** ** Shapes of the results *)

Section try_all.
Context {A B E : Type} (f : A → E + B).

Lemma try_all_inr l bs :
  try_all f l = inr bs → Forall2 (λ a b, f a = inr b) l bs.
Proof.
  revert bs. induction l as [|a l IH]; intros bs; simpl.
  - intros [= <-]. constructor.
  - destruct (f a) as [|b] eqn:Hb; [done|].
    destruct (try_all f l) as [|bs']; [done|].
    intros [= <-]. constructor; [done|]. by apply IH.
Qed.

Lemma try_all_total l :
  Forall (λ a, ∃ b, f a = inr b) l → ∃ bs, try_all f l = inr bs.
Proof.
  induction 1 as [|a l [b Hb] _ [bs Hbs]]; simpl; [by eexists|].
  rewrite Hb, Hbs. by eexists.
Qed.
End try_all.

Section shapes.
Context `{RandomSource, SetIteration}.
Context {Row Target : Type} `{!Estimator Row Target}.
Variable X : list Row.
Variable y : list Target.

Lemma lc_partition_length n K shuffle_on g :
  length (lc_partition n K shuffle_on g) = K.
Proof. apply kfolds_length. Qed.

(** A row that is returned has one entry per fold, entry [j] being
    the pair measured for fold [j]. *)
Lemma lc_row_inr s folds row :
  lc_row X y s folds = inr row →
  length row = length folds ∧
  ∀ j tt, folds !! j = Some tt →
    ∃ r, row !! j = Some r ∧
         lc_entry X y s j (lc_train_subset s tt.1) tt.2 = inr r.
Proof.
  intros Hrow%try_all_inr. split.
  - apply Forall2_length in Hrow. unfold enumerate in Hrow.
    by rewrite length_imap in Hrow.
  - intros j tt Hj.
    assert (enumerate folds !! j = Some (j, tt)) as Hej.
    { by rewrite enumerate_lookup, Hj. }
    destruct (Forall2_lookup_l _ _ _ _ _ Hrow Hej) as (r & Hr & Hentry).
    eauto.
Qed.

Lemma lc_row_total s folds :
  never_raises → ∃ row, lc_row X y s folds = inr row.
Proof.
  intros [Hfit Hscore]. apply try_all_total, Forall_forall.
  intros [j [train test]] _. unfold lc_entry. simpl.
  destruct (Hfit LinearRegression (select X (lc_train_subset s train))
              (select y (lc_train_subset s train))) as [e' ->].
  destruct (Hscore e' (select X (lc_train_subset s train))
              (select y (lc_train_subset s train))) as [rt ->].
  destruct (Hscore e' (select X test) (select y test)) as [re ->].
  by eexists.
Qed.

Lemma learning_curve_inr sizes K shuffle_on g res :
  learning_curve X y sizes K shuffle_on g = inr res →
  lc_shape X y sizes (lc_partition (length X) K shuffle_on g) res.
Proof.
  unfold learning_curve. destruct (lc_valid _ _ _ _); [|done].
  set (folds := lc_partition (length X) K shuffle_on g).
  destruct (try_all _ sizes) as [|rows] eqn:Hrows; [done|].
  intros [= <-]. apply try_all_inr in Hrows.
  pose proof (Forall2_length _ _ _ Hrows) as Hlen.
  unfold lc_shape. rewrite !length_fmap. split_and!; [done..| | |].
  - apply Forall_fmap, Forall_forall. intros row Hin. simpl.
    apply list_elem_of_lookup in Hin as [i Hi].
    destruct (Forall2_lookup_r _ _ _ _ _ Hrows Hi) as (s & _ & Hs).
    rewrite length_fmap. by apply lc_row_inr in Hs as [? _].
  - apply Forall_fmap, Forall_forall. intros row Hin. simpl.
    apply list_elem_of_lookup in Hin as [i Hi].
    destruct (Forall2_lookup_r _ _ _ _ _ Hrows Hi) as (s & _ & Hs).
    rewrite length_fmap. by apply lc_row_inr in Hs as [? _].
  - intros i s j tt Hi Hj.
    destruct (Forall2_lookup_l _ _ _ _ _ Hrows Hi) as (row & Hrow & Hs).
    apply lc_row_inr in Hs as [_ Hs].
    destruct (Hs j tt Hj) as ([rt re] & Hr & Hentry).
    exists rt, re. split; [done|].
    rewrite !list_lookup_fmap, Hrow. simpl.
    by rewrite !list_lookup_fmap, Hr.
Qed.

Lemma learning_curve_total sizes K shuffle_on g :
  lc_valid (length X) (length y) K sizes = true → never_raises →
  ∃ res, learning_curve X y sizes K shuffle_on g = inr res.
Proof.
  intros Hvalid Hnr. unfold learning_curve. rewrite Hvalid.
  destruct (try_all_total
              (λ s, lc_row X y s (lc_partition (length X) K shuffle_on g))
              sizes) as [rows ->]; [|by eexists].
  apply Forall_forall. intros s _. by apply lc_row_total.
Qed.
End shapes.

(** C8.  A run of the cell that ends normally leaves [train_r2] and
    [test_r2] of length exactly [K], entry [j] of each being the score
    appended in pass [j]; a call of the learning-curve driver that
    returns yields two matrices with one row per size, in the order of
    the schedule, each row with one entry per fold, in the order of the
    folds.  Every valid call returns: the loop for [n ≥ K ≥ 2] with as
    many targets as rows, the driver for a valid schedule of sizes,
    either with an estimator that does not raise. *)
Theorem result_shapes `{RandomSource, SetIteration}
    {Row Target : Type} `{!Estimator Row Target}
    (items : list Row) (age : list Target) (K : nat) (g : Rng)
    (sizes : list nat) (shuffle_on : bool) :
  (∀ c g',
     run_cell items age K g = (Return (), c, g') →
     length (train_r2 c) = K ∧ length (test_r2 c) = K ∧
     ∀ j, j < K →
       ∃ e0 e' r_train r_test,
         pass_scores items age K (shuffled_indices (length items) g).1 j
           e0 e' r_train r_test ∧
         train_r2 c !! j = Some r_train ∧ test_r2 c !! j = Some r_test) ∧
  (∀ res,
     learning_curve items age sizes K shuffle_on g = inr res →
     length (lc_partition (length items) K shuffle_on g) = K ∧
     lc_shape items age sizes (lc_partition (length items) K shuffle_on g) res) ∧
  (2 ≤ K → K ≤ length items → length age = length items → never_raises →
   ∃ c g', run_cell items age K g = (Return (), c, g')) ∧
  (lc_valid (length items) (length age) K sizes = true → never_raises →
   ∃ res, learning_curve items age sizes K shuffle_on g = inr res).
Proof.
  split_and!.
  - intros c g'. unfold run_cell.
    destruct (shuffled_indices (length items) g) as [inds g0]. simpl.
    rewrite kfold_loop_after_folds. intros [= Hc _].
    destruct (after_folds_lengths items age _ _ _ _ _ Hc) as (Hlen & _ & HK & _).
    specialize (HK eq_refl). split_and!; [done|lia|].
    intros j Hj.
    destruct (after_folds_entries items age _ _ _ _ j Hc Hj)
      as (ci & ci' & rt & re & _ & _ & Hp & Ht & He).
    by exists (est ci), (est ci'), rt, re.
  - intros res Hres. split; [apply lc_partition_length|].
    by apply learning_curve_inr.
  - intros HK Hn Hage Hnr. unfold run_cell.
    pose proof (index_list_shuffled (length items) g) as Hinds.
    destruct (shuffled_indices (length items) g) as [inds g']. simpl in *.
    rewrite kfold_loop_after_folds.
    destruct (after_folds_returns items age K inds K Hnr Hinds ltac:(lia))
      as [c Hc].
    exists c, g'. by rewrite Hc.
  - intros Hvalid Hnr. by apply learning_curve_total.
Qed.

Lemma result_shapes_witness :
  (∃ c g',
     @run_cell TapeSource AscendingIteration nat nat SampleSize
       [10; 20; 30; 40; 50; 60] [1; 2; 3; 4; 5; 6] 3 [4; 0; 2; 1; 1]
       = (Return (), c, g') ∧
     length (train_r2 c) = 3 ∧ length (test_r2 c) = 3) ∧
  (∃ res,
     @learning_curve TapeSource AscendingIteration nat nat SampleSize
       [10; 20; 30; 40; 50; 60] [1; 2; 3; 4; 5; 6] [3; 4; 6] 3 true
       [4; 0; 2; 1; 1] = inr res ∧
     length res.1.2 = 3 ∧ length res.2 = 3).
Proof.
  destruct (@result_shapes TapeSource AscendingIteration nat nat SampleSize
              [10; 20; 30; 40; 50; 60] [1; 2; 3; 4; 5; 6] 3 [4; 0; 2; 1; 1]
              [3; 4; 6] true) as (Hcv & Hlc & Hcv_returns & Hlc_returns).
  assert (@never_raises nat nat SampleSize) as Hnr.
  { split; intros; eexists; reflexivity. }
  split.
  - destruct Hcv_returns as (c & g' & Hrun); [lia|simpl; lia|reflexivity|done|].
    exists c, g'. destruct (Hcv c g' Hrun) as (Htr & Hte & _). done.
  - destruct Hlc_returns as [[[so tm] em] Hres]; [reflexivity|done|].
    exists (so, tm, em). split; [done|].
    destruct (Hlc _ Hres) as (_ & _ & Htm & Hem & _). done.
Defined.

(** C9.  In the learning-curve driver, for every fold [j] and sizes
    [s1 < s2], the training subset used at [s1] is a prefix of the one
    used at [s2]: each is the first [min(s, |train_j|)] entries of
    [train_j], and these are the subsets a row of the driver is fitted
    on. *)
Theorem learning_curve_monotone_inclusion `{RandomSource, SetIteration}
    (n K : nat) (shuffle_on : bool) (g : Rng) (s1 s2 j : nat) :
  s1 < s2 → j < K →
  ∃ train test,
    lc_partition n K shuffle_on g !! j = Some (train, test) ∧
    lc_train_subset s1 train `prefix_of` lc_train_subset s2 train ∧
    length (lc_train_subset s1 train) = s1 `min` length train ∧
    length (lc_train_subset s2 train) = s2 `min` length train ∧
    lc_train_subset s1 train `prefix_of` train ∧
    ∀ (Row Target : Type) (E : Estimator Row Target)
      (X : list Row) (y : list Target) (s : nat) folds,
      lc_row X y s folds =
      try_all (λ jt : nat * (list nat * list nat),
                 lc_entry X y s jt.1 (lc_train_subset s jt.2.1) jt.2.2)
              (enumerate folds).
Proof.
  intros Hs Hj. eexists _, _. split.
  { unfold lc_partition. by apply kfolds_lookup. }
  set (train := train_indices K j _). unfold lc_train_subset.
  split_and!.
  - exists (drop (s1 `min` length train) (take (s2 `min` length train) train)).
    rewrite <-(take_drop (s1 `min` length train)
                 (take (s2 `min` length train) train)) at 1.
    f_equal. rewrite take_take. f_equal. lia.
  - rewrite length_take. lia.
  - rewrite length_take. lia.
  - apply prefix_take.
  - done.
Qed.

(** ** One estimator for all folds *)

Section reuse.
Context `{SetIteration}.
Context {Row Target : Type} `{!Estimator Row Target}.
Variable items : list Row.
Variable age : list Target.

Lemma fold_body_renewed K inds k c1 c2 :
  fit_from_scratch →
  train_r2 c1 = train_r2 c2 → test_r2 c1 = test_r2 c2 →
  let r1 := fold_body items age K inds k c1 in
  let r2 := (est_renew;; fold_body items age K inds k) c2 in
  r1.1 = r2.1 ∧ train_r2 r1.2 = train_r2 r2.2 ∧ test_r2 r1.2 = test_r2 r2.2.
Proof.
  intros Hfit Htr Hte.
  unfold fold_body, mbind, M_bind, lift, est_renew, est_fit, est_score,
    train_r2_append, test_r2_append. simpl.
  destruct (iloc items (train_indices K k inds)) as [X_train|]; [|done].
  destruct (iloc items (test_indices K k inds)) as [X_test|]; [|done].
  destruct (iloc age (train_indices K k inds)) as [y_train|]; [|done].
  destruct (iloc age (test_indices K k inds)) as [y_test|]; [|done].
  rewrite (Hfit (est c1) LinearRegression).
  destruct (fit LinearRegression X_train y_train) as [|e']; [done|]. simpl.
  destruct (score e' X_train y_train) as [|rt]; [done|]. simpl.
  destruct (score e' X_test y_test) as [|re]; [done|]. simpl.
  by rewrite Htr, Hte.
Qed.

Lemma for_renewed K inds l c1 c2 :
  fit_from_scratch →
  train_r2 c1 = train_r2 c2 → test_r2 c1 = test_r2 c2 →
  scores_of (for_ l (fold_body items age K inds) c1) =
  scores_of (for_ l (λ k, est_renew;; fold_body items age K inds k) c2).
Proof.
  intros Hfit. revert c1 c2.
  induction l as [|k l IH]; intros c1 c2 Htr Hte.
  { unfold scores_of. simpl. by rewrite Htr, Hte. }
  rewrite !for_cons.
  destruct (fold_body_renewed K inds k c1 c2 Hfit Htr Hte) as (Ho & Htr' & Hte').
  destruct (fold_body items age K inds k c1) as [o1 c1'].
  destruct ((est_renew;; fold_body items age K inds k) c2) as [o2 c2'].
  simpl in Ho, Htr', Hte'. subst o2.
  destruct o1 as [[]|e]; [by apply IH|].
  unfold scores_of. simpl. by rewrite Htr', Hte'.
Qed.
End reuse.

(** C2 (counterexample).  With an estimator that keeps what it has
    learned, pass 1 refits the instance fitted in pass 0, not an
    untrained one, and the scores differ from those of a loop that makes
    a new estimator in every fold. *)
Lemma estimator_reused_across_folds :
  let items := [10; 20; 30; 40] in
  let age := [1; 2; 3; 4] in
  let inds := (@shuffled_indices TapeSource 4 [1; 1; 0]).1 in
  let loop := @kfold_loop AscendingIteration nat nat Incremental items age 2 inds in
  let fresh :=
    @kfold_loop_fresh AscendingIteration nat nat Incremental items age 2 inds in
  est (@after_folds AscendingIteration nat nat Incremental items age 2 inds 1).2
    = 2 ∧
  @LinearRegression nat nat Incremental = 0 ∧
  scores_of loop = (Return (), [2; 4], [2; 4]) ∧
  scores_of fresh = (Return (), [2; 2], [2; 2]) ∧
  scores_of loop ≠ scores_of fresh.
Proof. by vm_compute. Qed.

(** C2 (amended).  One estimator instance is made before the loop and
    refitted in every fold: pass 0 fits the untrained instance, pass
    [j + 1] fits the instance as pass [j] left it.  When [fit] starts
    from scratch, the loop ends as, and reports the scores of, a loop
    that makes a new estimator in every fold. *)
Theorem estimator_threaded_through_folds `{SetIteration}
    {Row Target : Type} `{!Estimator Row Target}
    (items : list Row) (age : list Target) (K : nat) (inds : list nat) :
  after_folds items age K inds 0 = (Return (), Cell LinearRegression [] []) ∧
  (∀ j c c',
     after_folds items age K inds j = (Return (), c) →
     after_folds items age K inds (S j) = (Return (), c') →
     ∃ r_train r_test,
       pass_scores items age K inds j (est c) (est c') r_train r_test) ∧
  (fit_from_scratch →
     scores_of (kfold_loop items age K inds) =
     scores_of (kfold_loop_fresh items age K inds)).
Proof.
  split_and!.
  - done.
  - intros j c c' Hc Hc'.
    destruct (after_folds_Return_inv _ _ _ _ _ _ Hc') as (c0 & Hc0 & Hbody).
    rewrite Hc in Hc0. injection Hc0 as <-.
    destruct (fold_body_Return_inv _ _ _ _ _ _ _ Hbody) as (e' & rt & re & Hp & ->).
    by exists rt, re.
  - intros Hfit. by apply for_renewed.
Qed.

Lemma estimator_threaded_through_folds_witness :
  scores_of (@kfold_loop AscendingIteration nat nat SampleSize
               [10; 20; 30; 40] [1; 2; 3; 4] 2 [2; 0; 3; 1]) =
  scores_of (@kfold_loop_fresh AscendingIteration nat nat SampleSize
               [10; 20; 30; 40] [1; 2; 3; 4] 2 [2; 0; 3; 1]).
Proof.
  apply (@estimator_threaded_through_folds AscendingIteration nat nat SampleSize).
  intros e1 e2 X y. reflexivity.
Defined.

(** ** No argument check *)

Section degenerate.
Context {A : Type} (P : nat → Prop) `{!∀ p, Decision (P p)}.
Implicit Types l : list A.

Lemma at_positions_all l :
  (∀ p, p < length l → P p) → at_positions P l = l.
Proof.
  induction l as [|x l IH] using rev_ind; intros HP; [done|].
  rewrite at_positions_snoc, IH.
  - rewrite decide_True; [done|]. apply HP. rewrite length_app. simpl. lia.
  - intros p Hp. apply HP. rewrite length_app. lia.
Qed.

Lemma at_positions_none l :
  (∀ p, p < length l → ¬ P p) → at_positions P l = [].
Proof.
  induction l as [|x l IH] using rev_ind; intros HP; [done|].
  rewrite at_positions_snoc, IH.
  - rewrite decide_False; [done|]. apply HP. rewrite length_app. simpl. lia.
  - intros p Hp. apply HP. rewrite length_app. lia.
Qed.
End degenerate.

Section no_check.
Context `{RandomSource, SetIteration}.
Context {Row Target : Type} `{!Estimator Row Target}.
Variable items : list Row.
Variable age : list Target.

Lemma list_of_set_empty : list_of_set ∅ = [].
Proof.
  apply Permutation_nil_r. rewrite list_of_set_perm. by rewrite elements_empty.
Qed.

(** With a single fold nothing is left to train on. *)
Lemma fold_indices_single inds :
  NoDup inds →
  train_indices 1 0 inds = [] ∧ test_indices 1 0 inds ≡ₚ inds.
Proof.
  intros Hnd.
  assert (train_indices 1 0 inds = []) as Htrain.
  { rewrite train_indices_at_positions. apply at_positions_none.
    intros p _ Hp. by rewrite Nat.mod_1_r in Hp. }
  split; [done|]. unfold test_indices, test_set. rewrite Htrain.
  rewrite list_of_set_perm. simpl. rewrite difference_empty_L.
  by apply elements_list_to_set.
Qed.

(** A fold beyond the last row tests on nothing. *)
Lemma fold_indices_beyond K j inds :
  length inds ≤ j → j < K → fold_indices K j inds = (inds, []).
Proof.
  intros Hn Hj.
  assert (train_indices K j inds = inds) as Htrain.
  { rewrite train_indices_at_positions. apply at_positions_all.
    intros p Hp. rewrite Nat.mod_small by lia. lia. }
  unfold fold_indices, test_indices, test_set. rewrite Htrain.
  by rewrite difference_diag_L, list_of_set_empty.
Qed.

(** A run that raises does so in some pass [j], entered after the
    passes before it have returned, and keeps their scores. *)
Lemma after_folds_Raise_inv K inds j e c :
  after_folds items age K inds j = (Raise e, c) →
  ∃ i c0, i < j ∧
    after_folds items age K inds i = (Return (), c0) ∧
    fold_body items age K inds i c0 = (Raise e, c) ∧
    train_r2 c = train_r2 c0 ∧ test_r2 c = test_r2 c0 ∧
    length (train_r2 c) = i ∧ length (test_r2 c) = i.
Proof.
  induction j as [|j IH]; [done|]. rewrite after_folds_S.
  destruct (after_folds items age K inds j) as [[[]|e0] c0] eqn:Hj.
  - intros Hbody. exists j, c0.
    destruct (after_folds_lengths items age _ _ _ _ _ Hj) as (Hlen & _ & Hret & _).
    specialize (Hret eq_refl).
    pose proof (fold_body_spec items age K inds j c0) as Hs.
    rewrite Hbody in Hs. inversion Hs as [|? ? Htr Hte]; subst.
    rewrite Htr, Hte. split_and!; [lia|done..|lia].
  - intros [= <- <-]. destruct (IH eq_refl) as (i & c1 & Hi & Hrest).
    exists i, c1. split; [lia|done].
Qed.
End no_check.

(** C7 (counterexample).  With [K = 0 < 2] the run ends normally with
    empty results.  With [n = 3 < K = 5] and an estimator that never
    raises it ends normally with five scores per list.  With an estimator
    that raises on an empty sample the run on [n = 3], [K = 5] raises the
    estimator's error in pass 3, when the fourth fit has been made, and
    the three scores of the passes before stay in the lists. *)
Lemma no_invalid_arguments_failure :
  let items := [10; 20; 30] in
  let age := [1; 2; 3] in
  @run_cell TapeSource AscendingIteration nat nat Strict items age 0 [0; 0]
    = (Return (), @Cell nat nat Strict 0 [] [], []) ∧
  @run_cell TapeSource AscendingIteration nat nat SampleSize items age 5 [0; 0]
    = (Return (), @Cell nat nat SampleSize 3 [4; 4; 4; 6; 6] [3; 3; 3; 3; 3], []) ∧
  @run_cell TapeSource AscendingIteration nat nat Strict items age 5 [0; 0]
    = (Raise (@EstimatorError nat nat Strict ()),
       @Cell nat nat Strict 4 [1; 2; 3] [1; 2; 3], []).
Proof. by vm_compute. Qed.

(** C7 (amended).  The cell checks no argument and knows no
    [InvalidArguments]: for every [n] and [K] the fold construction
    yields [K] folds.  With [K = 0] the body never runs and the run ends
    normally with empty results; with [K = 1] the train fold is empty and
    the test fold is the whole index list; for [n < K] the folds [j ≥ n]
    have the whole index list as train fold and an empty test fold.
    With an estimator that never raises and a target for every row, the
    run ends normally with [K] scores per list whatever [n] and [K].  A
    run that raises does so inside some pass [j < K], by a row selection
    or a call of the estimator, after the passes before it returned, and
    the [j] scores of these passes stay in the lists. *)
Theorem no_argument_validation `{RandomSource, SetIteration}
    {Row Target : Type} `{!Estimator Row Target}
    (items : list Row) (age : list Target) (K : nat) (g : Rng) :
  let n := length items in
  let inds := (shuffled_indices n g).1 in
  length (fold_sequence n K g) = K ∧
  (K = 0 → (run_cell items age K g).1 = (Return (), Cell LinearRegression [] [])) ∧
  (K = 1 → train_indices K 0 inds = [] ∧ test_indices K 0 inds ≡ₚ inds) ∧
  (∀ j, n ≤ j → j < K → fold_sequence n K g !! j = Some (inds, [])) ∧
  (never_raises → n ≤ length age →
     ∃ c, (run_cell items age K g).1 = (Return (), c) ∧
          length (train_r2 c) = K ∧ length (test_r2 c) = K) ∧
  (∀ e c, (run_cell items age K g).1 = (Raise e, c) →
     ∃ j c0, j < K ∧
       after_folds items age K inds j = (Return (), c0) ∧
       fold_body items age K inds j c0 = (Raise e, c) ∧
       train_r2 c = train_r2 c0 ∧ test_r2 c = test_r2 c0 ∧
       length (train_r2 c) = j ∧ length (test_r2 c) = j).
Proof.
  intros n inds.
  assert ((run_cell items age K g).1 = after_folds items age K inds K) as Hrun.
  { unfold run_cell, inds, n.
    by destruct (shuffled_indices (length items) g) as [inds' g']. }
  pose proof (index_list_shuffled n g) as Hinds. fold inds in Hinds.
  split_and!.
  - apply kfolds_length.
  - intros ->. by rewrite Hrun.
  - intros ->. apply fold_indices_single. by eapply index_list_NoDup.
  - intros j Hn Hj. unfold fold_sequence. fold inds.
    rewrite kfolds_lookup by done. f_equal.
    apply fold_indices_beyond; [|done].
    by rewrite (index_list_length n inds).
  - intros Hnr Hage. rewrite Hrun.
    destruct (after_folds_returns items age K inds K Hnr Hinds Hage) as [c Hc].
    exists c. split; [done|].
    destruct (after_folds_lengths items age _ _ _ _ _ Hc) as (Hlen & _ & HK & _).
    specialize (HK eq_refl). lia.
  - intros e c. rewrite Hrun. apply after_folds_Raise_inv.
Qed.

Lemma no_argument_validation_witness :
  ∃ c, (@run_cell TapeSource AscendingIteration nat nat SampleSize
          [10; 20; 30] [1; 2; 3] 5 [0; 0]).1 = (Return (), c) ∧
       length (train_r2 c) = 5 ∧ length (test_r2 c) = 5.
Proof.
  apply (@no_argument_validation TapeSource AscendingIteration nat nat SampleSize
           [10; 20; 30] [1; 2; 3] 5 [0; 0]).
  - split; intros; eexists; reflexivity.
  - simpl. lia.
Defined.

Lemma learning_curve_monotone_inclusion_witness :
  ∃ train test,
    @lc_partition TapeSource AscendingIteration 6 3 true [4; 0; 2; 1; 1] !! 1
      = Some (train, test) ∧
    lc_train_subset 2 train `prefix_of` lc_train_subset 3 train.
Proof.
  destruct (@learning_curve_monotone_inclusion TapeSource AscendingIteration
              6 3 true [4; 0; 2; 1; 1] 2 3 1) as (train & test & Hj & Hpre & _).
  - lia.
  - lia.
  - by exists train, test.
Defined.

(** * Further properties of the cell *)

(** ** The index list after the shuffle *)

(** X1.  After [inds = list(range(n)); shuffle(inds)] the list holds
    every index below [n] exactly once: it has [n] entries, no entry
    twice, and its entries are the numbers below [n]. *)
Theorem shuffled_indices_each_once `{RandomSource} (n : nat) (g : Rng) :
  (shuffled_indices n g).1 ≡ₚ range n ∧
  length (shuffled_indices n g).1 = n ∧
  NoDup (shuffled_indices n g).1 ∧
  ∀ x, x ∈ (shuffled_indices n g).1 ↔ x < n.
Proof.
  split_and!.
  - apply shuffled_indices_Permutation.
  - apply shuffled_indices_length.
  - apply shuffled_indices_NoDup.
  - apply shuffled_indices_elem_of.
Qed.

(** ** Every row once per fold *)

Section each_once.
Context `{SetIteration}.

Lemma train_indices_NoDup K k inds : NoDup inds → NoDup (train_indices K k inds).
Proof.
  intros Hnd. eapply sublist_NoDup; [exact Hnd|].
  rewrite train_indices_at_positions. apply at_positions_sublist.
Qed.

Lemma train_test_Permutation n K k inds :
  index_list n inds →
  train_indices K k inds ++ test_indices K k inds ≡ₚ range n.
Proof.
  intros Hinds. pose proof (index_list_NoDup _ _ Hinds) as Hnd.
  apply NoDup_Permutation.
  - apply NoDup_app. split_and!.
    + by apply train_indices_NoDup.
    + intros x. rewrite test_indices_elem_of, train_indices_elem_of by done.
      intros (p & Hp & Hpk) (q & Hq & Hqk).
      by rewrite (NoDup_lookup _ _ _ _ Hnd Hq Hp) in Hqk.
    + apply test_indices_NoDup.
  - apply NoDup_seq.
  - intros x. rewrite elem_of_app.
    rewrite test_indices_elem_of, train_indices_elem_of by done.
    unfold range. rewrite elem_of_seq. split.
    + intros [(p & Hp & _)|(p & Hp & _)];
        (assert (x < n); [|lia]);
        apply (index_list_elem_of n inds); [done| |done|];
        apply list_elem_of_lookup; eauto.
    + intros [_ Hx]. simpl in Hx.
      destruct (index_position n inds x Hinds Hx) as [p Hp].
      destruct (decide (p mod K = k)); eauto.
Qed.
End each_once.

(** X2.  In every fold, [train] followed by [test] lists every index
    below [n] exactly once: no row is selected twice, none is left out,
    and none is in both lists. *)
Theorem fold_lists_each_index_once `{RandomSource, SetIteration}
    (n K : nat) (g : Rng) (j : nat) (train test : list nat) :
  fold_sequence n K g !! j = Some (train, test) →
  train ++ test ≡ₚ range n ∧ NoDup train ∧ NoDup test ∧
  length train + length test = n.
Proof.
  intros [Hj [= -> ->]]%kfolds_lookup_Some.
  pose proof (index_list_shuffled n g) as Hinds.
  pose proof (train_test_Permutation n K j _ Hinds) as Hperm.
  split_and!.
  - done.
  - apply train_indices_NoDup. by eapply index_list_NoDup.
  - apply test_indices_NoDup.
  - apply Permutation_length in Hperm. unfold range in Hperm.
    by rewrite length_app, length_seq in Hperm.
Qed.

Lemma fold_lists_each_index_once_witness :
  [1; 4] ++ [0; 2; 3] ≡ₚ range 5.
Proof.
  apply (@fold_lists_each_index_once TapeSource AscendingIteration
           5 2 [2; 2; 0; 1] 0 [1; 4] [0; 2; 3]).
  reflexivity.
Defined.

(** ** Sizes of the folds *)

Lemma class_size_bounds n K k :
  2 ≤ K → K ≤ n → 0 < class_size n K k ∧ class_size n K k < n.
Proof.
  intros HK Hn. unfold class_size.
  pose proof (Nat.div_mod_eq n K) as Hdm.
  pose proof (Nat.mod_upper_bound n K ltac:(lia)) as Hr.
  assert (0 < n / K) as Hq.
  { destruct (n / K) eqn:Hz; [|lia]. lia. }
  split; [case_decide; lia|].
  case_decide; nia.
Qed.

(** X3.  For [n ≥ K ≥ 2], test fold [j] has [⌊n/K⌋] entries and one more
    exactly when [j < n mod K] (the folds with the extra entry come
    first), train fold [j] has the remaining [n - |test_j|] entries, and
    neither list is empty. *)
Theorem fold_sizes_nonempty `{RandomSource, SetIteration}
    (n K : nat) (g : Rng) (j : nat) (train test : list nat) :
  2 ≤ K → K ≤ n →
  fold_sequence n K g !! j = Some (train, test) →
  length test = n / K + (if decide (j < n mod K) then 1 else 0) ∧
  length train = n - length test ∧
  train ≠ [] ∧ test ≠ [].
Proof.
  intros HK Hn [Hj [= -> ->]]%kfolds_lookup_Some.
  pose proof (index_list_shuffled n g) as Hinds.
  pose proof (test_indices_length n K j _ Hinds Hj) as Hte.
  pose proof (train_indices_length n K j _ Hinds Hj) as Htr.
  destruct (class_size_bounds n K j HK Hn) as [Hpos Hlt].
  split_and!.
  - done.
  - lia.
  - intros Hnil. rewrite Hnil in Htr. simpl in Htr. lia.
  - intros Hnil. rewrite Hnil in Hte. simpl in Hte. lia.
Qed.

Lemma fold_sizes_nonempty_witness :
  length [0; 2; 3] = 5 / 2 + (if decide (0 < 5 mod 2) then 1 else 0) ∧
  length [1; 4] = 5 - length [0; 2; 3].
Proof.
  destruct (@fold_sizes_nonempty TapeSource AscendingIteration
              5 2 [2; 2; 0; 1] 0 [1; 4] [0; 2; 3]) as (Hte & Htr & _);
    [lia|lia|reflexivity|].
  split; [exact Hte|exact Htr].
Defined.

(** ** Train folds and the other test folds *)

(** X4.  The train fold of fold [j] is made of the test folds of the
    other folds: an index is in [train_j] exactly when it is in the test
    fold of some fold [i ≠ j]. *)
Theorem train_is_other_tests `{RandomSource, SetIteration}
    (n K : nat) (g : Rng) (j : nat) (train test : list nat) :
  fold_sequence n K g !! j = Some (train, test) →
  ∀ x, x ∈ train ↔
    ∃ i tt, i ≠ j ∧ fold_sequence n K g !! i = Some tt ∧ x ∈ tt.2.
Proof.
  intros [Hj [= -> ->]]%kfolds_lookup_Some x.
  pose proof (shuffled_indices_NoDup n g) as Hnd.
  rewrite train_indices_elem_of. split.
  - intros (p & Hp & Hpj).
    assert (p mod K < K) as HpK by (apply Nat.mod_upper_bound; lia).
    exists (p mod K), (fold_indices K (p mod K) (shuffled_indices n g).1).
    split_and!; [done|by apply kfolds_lookup|].
    simpl. apply test_indices_elem_of; eauto.
  - intros (i & tt & Hij & [Hi ->]%kfolds_lookup_Some & Hx). simpl in Hx.
    apply test_indices_elem_of in Hx as (p & Hp & Hpi); [|done].
    exists p. split; [done|lia].
Qed.

Lemma train_is_other_tests_witness :
  1 ∈ [1; 4] ↔
  ∃ i tt, i ≠ 0 ∧
    @fold_sequence TapeSource AscendingIteration 5 2 [2; 2; 0; 1] !! i = Some tt ∧
    1 ∈ tt.2.
Proof.
  apply (@train_is_other_tests TapeSource AscendingIteration
           5 2 [2; 2; 0; 1] 0 [1; 4] [0; 2; 3]).
  reflexivity.
Defined.

(** ** How often a row is used *)

Lemma filter_fmap_length {A B} (f : A → B) (P : B → Prop)
    `{!∀ b, Decision (P b)} (l : list A) :
  length (filter P (f <$> l)) = length (filter (λ a, P (f a)) l).
Proof.
  induction l as [|a l IH]; [done|]. csimpl.
  rewrite !filter_cons. destruct (decide (P (f a))); simpl; by rewrite IH.
Qed.

Lemma filter_eq_seq_length c K :
  length (filter (λ k, c = k) (seq 0 K)) = if decide (c < K) then 1 else 0.
Proof.
  induction K as [|K IH]; [done|].
  rewrite seq_S, filter_app, length_app, IH. simpl.
  rewrite filter_cons, filter_nil. repeat case_decide; simpl; lia.
Qed.

Lemma filter_ne_seq_length c K :
  c < K → length (filter (λ k, c ≠ k) (seq 0 K)) = K - 1.
Proof.
  intros Hc.
  pose proof (filter_app_complement (λ k, c = k) (seq 0 K)) as Hperm.
  apply Permutation_length in Hperm.
  rewrite length_app, length_seq, filter_eq_seq_length in Hperm.
  rewrite decide_True in Hperm by done. lia.
Qed.

(** X5.  Every row is tested once and trained on in all other folds:
    for [K ≥ 1], an index below [n] is in the test list of exactly one
    fold and in the train list of exactly [K - 1] folds. *)
Theorem index_tested_once_trained_rest `{RandomSource, SetIteration}
    (n K : nat) (g : Rng) (x : nat) :
  0 < K → x < n →
  length (filter (λ tt : list nat * list nat, x ∈ tt.2) (fold_sequence n K g)) = 1 ∧
  length (filter (λ tt : list nat * list nat, x ∈ tt.1) (fold_sequence n K g)) = K - 1.
Proof.
  intros HK Hx.
  pose proof (index_list_shuffled n g) as Hinds.
  pose proof (shuffled_indices_NoDup n g) as Hnd.
  destruct (index_position n _ x Hinds Hx) as [p Hp].
  assert (p mod K < K) as HpK by (apply Nat.mod_upper_bound; lia).
  unfold fold_sequence, kfolds, range. rewrite !filter_fmap_length. split.
  - rewrite (list_filter_iff _ (λ k, p mod K = k)).
    + rewrite filter_eq_seq_length. by rewrite decide_True.
    + intros k. simpl. rewrite test_indices_elem_of by done. split.
      * intros (q & Hq & Hqk). by rewrite <-(NoDup_lookup _ _ _ _ Hnd Hp Hq) in Hqk.
      * intros Hk. eauto.
  - rewrite (list_filter_iff _ (λ k, p mod K ≠ k)).
    + by apply filter_ne_seq_length.
    + intros k. simpl. rewrite train_indices_elem_of. split.
      * intros (q & Hq & Hqk). by rewrite <-(NoDup_lookup _ _ _ _ Hnd Hp Hq) in Hqk.
      * intros Hk. eauto.
Qed.

Lemma index_tested_once_trained_rest_witness :
  length (filter (λ tt : list nat * list nat, 3 ∈ tt.2)
            (@fold_sequence TapeSource AscendingIteration 5 3 [2; 2; 0; 1])) = 1 ∧
  length (filter (λ tt : list nat * list nat, 3 ∈ tt.1)
            (@fold_sequence TapeSource AscendingIteration 5 3 [2; 2; 0; 1])) = 3 - 1.
Proof.
  apply (@index_tested_once_trained_rest TapeSource AscendingIteration
           5 3 [2; 2; 0; 1] 3); lia.
Defined.

(** ** Leave-one-out *)

(** X6.  With as many folds as rows ([K = n], leave-one-out), the test
    list of fold [j] is the single index at position [j] of the shuffled
    list and the train list holds the [n - 1] others. *)
Theorem leave_one_out `{RandomSource, SetIteration}
    (n : nat) (g : Rng) (j : nat) (train test : list nat) :
  fold_sequence n n g !! j = Some (train, test) →
  ∃ x, (shuffled_indices n g).1 !! j = Some x ∧
       test = [x] ∧ length train = n - 1 ∧ x ∉ train.
Proof.
  intros Hfold. pose proof Hfold as [Hj [= Htr Hte]]%kfolds_lookup_Some.
  pose proof (index_list_shuffled n g) as Hinds.
  pose proof (shuffled_indices_NoDup n g) as Hnd.
  destruct (lookup_lt_is_Some_2 (shuffled_indices n g).1 j) as [x Hx].
  { by rewrite shuffled_indices_length. }
  exists x.
  assert (test = [x]) as Hone.
  { apply Permutation_singleton_r, NoDup_Permutation.
    - subst test. apply test_indices_NoDup.
    - apply NoDup_singleton.
    - intros z. subst test. rewrite test_indices_elem_of by done.
      rewrite list_elem_of_singleton. split.
      + intros (p & Hp & Hpj).
        assert (p < n) as Hpn.
        { apply lookup_lt_Some in Hp. by rewrite shuffled_indices_length in Hp. }
        rewrite Nat.mod_small in Hpj by done. subst p. congruence.
      + intros ->. exists j. split; [done|]. by apply Nat.mod_small. }
  pose proof (train_test_Permutation n n j _ Hinds) as Hperm.
  rewrite <-Htr, <-Hte in Hperm.
  pose proof (Permutation_length Hperm) as Hlen.
  unfold range in Hlen. rewrite length_app, length_seq in Hlen.
  split_and!; [done|done| |].
  - rewrite Hone in Hlen. simpl in Hlen. lia.
  - intros Hin. apply NoDup_Permutation_proper in Hperm.
    assert (NoDup (train ++ test)) as Happ by (apply Hperm, NoDup_seq).
    apply NoDup_app in Happ as (_ & Hdisj & _).
    apply (Hdisj x Hin). rewrite Hone. apply list_elem_of_here.
Qed.

Lemma leave_one_out_witness :
  ∃ x, (@shuffled_indices TapeSource 3 [1; 1]).1 !! 1 = Some x ∧
       [2] = [x] ∧ length [0; 1] = 3 - 1 ∧ x ∉ [0; 1].
Proof.
  apply (@leave_one_out TapeSource AscendingIteration 3 [1; 1] 1 [0; 1] [2]).
  reflexivity.
Defined.

(** ** Row selection in the loop *)

Section selection.
Context `{SetIteration}.
Context {Row Target : Type} `{!Estimator Row Target}.

Lemma iloc_Return_inv {A} (xs : list A) idx rows :
  iloc xs idx = Return rows →
  length rows = length idx ∧
  ∀ i t, idx !! i = Some t → t < length xs ∧ rows !! i = xs !! t.
Proof.
  unfold iloc. destruct (mapM _ idx) as [rows'|] eqn:Hm; [|done].
  intros [= <-]. apply mapM_Some in Hm. split.
  - symmetry. by eapply Forall2_length.
  - intros i t Hi.
    destruct (Forall2_lookup_l _ _ _ _ _ Hm Hi) as (r & Hr & Ht).
    split; [by eapply lookup_lt_Some|congruence].
Qed.

Lemma iloc_Raise_inv {A} (xs : list A) idx e :
  iloc xs idx = Raise e → e = IndexError ∧ ∃ t, t ∈ idx ∧ length xs ≤ t.
Proof.
  unfold iloc. destruct (mapM _ idx) as [rows'|] eqn:Hm; [done|].
  intros [= <-]. split; [done|].
  apply mapM_None, Exists_exists in Hm as (t & Ht & Hnone).
  exists t. split; [done|]. by apply lookup_ge_None.
Qed.

Lemma iloc_out_of_bounds {A} (xs : list A) idx t :
  t ∈ idx → length xs ≤ t → iloc xs idx = Raise IndexError.
Proof.
  intros Ht Hge. destruct (iloc xs idx) as [rows|e] eqn:Hi.
  - apply iloc_Return_inv in Hi as [_ Hi].
    apply list_elem_of_lookup in Ht as [i Hit].
    destruct (Hi i t Hit). lia.
  - by apply iloc_Raise_inv in Hi as [-> _].
Qed.

Variable items : list Row.
Variable age : list Target.

(** A pass whose four selections return raises nothing but an error
    of the estimator. *)
Lemma fold_body_selected K inds k c X_train X_test y_train y_test :
  iloc items (train_indices K k inds) = Return X_train →
  iloc items (test_indices K k inds) = Return X_test →
  iloc age (train_indices K k inds) = Return y_train →
  iloc age (test_indices K k inds) = Return y_test →
  ∀ e c', fold_body items age K inds k c = (Raise e, c') →
    ∃ err, e = EstimatorError err.
Proof.
  intros H1 H2 H3 H4 e c'.
  unfold fold_body, mbind, M_bind, lift, est_fit, est_score,
    train_r2_append, test_r2_append.
  rewrite H1, H2, H3, H4.
  destruct (fit (est c) X_train y_train) as [err|e']; [intros [= <- _]; eauto|].
  simpl.
  destruct (score e' X_train y_train) as [err|rt]; [intros [= <- _]; eauto|].
  simpl.
  destruct (score e' X_test y_test) as [err|re]; [intros [= <- _]; eauto|].
  done.
Qed.

(** A pass that meets an index without a target raises [IndexError]
    and leaves the cell as it found it. *)
Lemma fold_body_short_targets n K inds k c :
  index_list n inds → n = length items → length age < n →
  fold_body items age K inds k c = (Raise IndexError, c).
Proof.
  intros Hinds Hn Hage.
  pose proof (train_indices_in_range n K k _ Hinds) as Htr.
  pose proof (test_indices_in_range n K k _ Hinds) as Hte.
  rewrite Hn in Htr, Hte.
  destruct (iloc_Return items _ Htr) as (X_train & HXtr & _).
  destruct (iloc_Return items _ Hte) as (X_test & HXte & _).
  unfold fold_body, mbind, M_bind, lift. rewrite HXtr, HXte.
  destruct (iloc age (train_indices K k inds)) as [y_train|e] eqn:Hytr.
  - rewrite (iloc_out_of_bounds age (test_indices K k inds) (length age));
      [done| |done].
    assert (length age ∈ train_indices K k inds ++ test_indices K k inds) as Hin.
    { rewrite (train_test_Permutation n) by done.
      unfold range. apply elem_of_seq. lia. }
    apply elem_of_app in Hin as [Hin|Hin]; [|done].
    apply iloc_Return_inv in Hytr as [_ Hytr].
    apply list_elem_of_lookup in Hin as [i Hi].
    destruct (Hytr i _ Hi). lia.
  - by apply iloc_Raise_inv in Hytr as [-> _].
Qed.
End selection.

(** X7.  When every row has a target ([len(age) ≥ len(items)]) the
    selections [items.iloc[...]] and [age.iloc[...]] never go out of
    bounds: a run that fails fails with an error of the estimator, never
    with [IndexError]. *)
Theorem run_raises_no_index_error `{RandomSource, SetIteration}
    {Row Target : Type} `{!Estimator Row Target}
    (items : list Row) (age : list Target) (K : nat) (g : Rng) e c g' :
  length items ≤ length age →
  run_cell items age K g = (Raise e, c, g') →
  ∃ err, e = EstimatorError err.
Proof.
  intros Hage. unfold run_cell.
  pose proof (index_list_shuffled (length items) g) as Hinds.
  destruct (shuffled_indices (length items) g) as [inds g0]. simpl in Hinds.
  rewrite kfold_loop_after_folds. intros [= Hrun _].
  apply after_folds_Raise_inv in Hrun as (j & c0 & _ & _ & Hbody & _).
  pose proof (train_indices_in_range _ K j _ Hinds) as Htr.
  pose proof (test_indices_in_range _ K j _ Hinds) as Hte.
  destruct (iloc_Return items _ Htr) as (X_train & HXtr & _).
  destruct (iloc_Return items _ Hte) as (X_test & HXte & _).
  destruct (iloc_Return age (train_indices K j inds)) as (y_train & Hytr & _).
  { eapply Forall_impl; [exact Htr|]. simpl. lia. }
  destruct (iloc_Return age (test_indices K j inds)) as (y_test & Hyte & _).
  { eapply Forall_impl; [exact Hte|]. simpl. lia. }
  by eapply fold_body_selected.
Qed.

Lemma run_raises_no_index_error_witness :
  ∃ err, @EstimatorError nat nat Strict () = EstimatorError err.
Proof.
  apply (@run_raises_no_index_error TapeSource AscendingIteration nat nat Strict
           [10; 20; 30] [1; 2; 3] 5 [0; 0] _
           (@Cell nat nat Strict 4 [1; 2; 3] [1; 2; 3]) []).
  - simpl. lia.
  - reflexivity.
Defined.

(** X8.  When there are fewer targets than rows ([len(age) < len(items)])
    and [K ≥ 1], the run raises [IndexError] in the first pass, before
    any fit: the estimator is still the untrained one and both score
    lists are empty. *)
Theorem short_targets_index_error `{RandomSource, SetIteration}
    {Row Target : Type} `{!Estimator Row Target}
    (items : list Row) (age : list Target) (K : nat) (g : Rng) :
  length age < length items → 0 < K →
  run_cell items age K g =
    (Raise IndexError, Cell LinearRegression [] [],
     (shuffled_indices (length items) g).2).
Proof.
  intros Hage HK. unfold run_cell.
  pose proof (index_list_shuffled (length items) g) as Hinds.
  destruct (shuffled_indices (length items) g) as [inds g0]. simpl in *.
  f_equal. unfold kfold_loop, range.
  destruct K as [|K]; [lia|]. simpl seq. rewrite for_cons.
  by rewrite (fold_body_short_targets items age (length items)).
Qed.

Lemma short_targets_index_error_witness :
  @run_cell TapeSource AscendingIteration nat nat SampleSize
    [10; 20; 30] [1; 2] 2 [0; 0]
  = (Raise IndexError, @Cell nat nat SampleSize 0 [] [], []).
Proof.
  apply (@short_targets_index_error TapeSource AscendingIteration nat nat
           SampleSize [10; 20; 30] [1; 2] 2 [0; 0]); simpl; lia.
Defined.

(** ** What the estimator is fitted on *)

(** X9.  In every pass of a run on data with a target for every row,
    the selections return and the pass goes on to [fit] and [score]
    with rows and targets that are aligned: [X_train] and [y_train]
    have one entry per train index, entry [i] of each being the row,
    respectively the target, at index [train[i]], and likewise [X_test]
    and [y_test] for the test indices. *)
Theorem fit_data_aligned `{RandomSource, SetIteration}
    {Row Target : Type} `{!Estimator Row Target}
    (items : list Row) (age : list Target) (K : nat) (g : Rng)
    (k : nat) (c : cell) :
  length items ≤ length age →
  let inds := (shuffled_indices (length items) g).1 in
  let train := train_indices K k inds in
  let test := test_indices K k inds in
  ∃ X_train X_test y_train y_test,
    fold_body items age K inds k c =
      (est_fit X_train y_train;;
       _train_r2 ← est_score X_train y_train;
       _test_r2 ← est_score X_test y_test;
       train_r2_append _train_r2;;
       test_r2_append _test_r2) c ∧
    length X_train = length train ∧ length y_train = length train ∧
    length X_test = length test ∧ length y_test = length test ∧
    (∀ i t, train !! i = Some t →
       is_Some (items !! t) ∧ is_Some (age !! t) ∧
       X_train !! i = items !! t ∧ y_train !! i = age !! t) ∧
    (∀ i t, test !! i = Some t →
       is_Some (items !! t) ∧ is_Some (age !! t) ∧
       X_test !! i = items !! t ∧ y_test !! i = age !! t).
Proof.
  intros Hage inds train test.
  pose proof (index_list_shuffled (length items) g) as Hinds. fold inds in Hinds.
  pose proof (train_indices_in_range _ K k _ Hinds) as Htr. fold train in Htr.
  pose proof (test_indices_in_range _ K k _ Hinds) as Hte. fold test in Hte.
  destruct (iloc_Return items _ Htr) as (X_train & HXtr & _).
  destruct (iloc_Return items _ Hte) as (X_test & HXte & _).
  destruct (iloc_Return age train) as (y_train & Hytr & _).
  { eapply Forall_impl; [exact Htr|]. simpl. lia. }
  destruct (iloc_Return age test) as (y_test & Hyte & _).
  { eapply Forall_impl; [exact Hte|]. simpl. lia. }
  exists X_train, X_test, y_train, y_test.
  split.
  { unfold fold_body. fold train test. cbv zeta.
    rewrite HXtr, HXte, Hytr, Hyte. reflexivity. }
  apply iloc_Return_inv in HXtr as [? HXtr].
  apply iloc_Return_inv in HXte as [? HXte].
  apply iloc_Return_inv in Hytr as [? Hytr].
  apply iloc_Return_inv in Hyte as [? Hyte].
  split_and!; [done..| |].
  - intros i t Hi. destruct (HXtr i t Hi), (Hytr i t Hi).
    split_and!; [by apply lookup_lt_is_Some_2..|done|done].
  - intros i t Hi. destruct (HXte i t Hi), (Hyte i t Hi).
    split_and!; [by apply lookup_lt_is_Some_2..|done|done].
Qed.

Lemma fit_data_aligned_witness :
  let items := [10; 20; 30; 40] in
  let age := [1; 2; 3; 4] in
  let inds := (@shuffled_indices TapeSource 4 [1; 1; 0]).1 in
  ∃ X_train X_test y_train y_test : list nat,
    @fold_body AscendingIteration nat nat Incremental items age 2 inds 1
      (@Cell nat nat Incremental 2 [2] [2]) =
      (est_fit X_train y_train;;
       _train_r2 ← est_score X_train y_train;
       _test_r2 ← est_score X_test y_test;
       train_r2_append _train_r2;;
       test_r2_append _test_r2) (@Cell nat nat Incremental 2 [2] [2]) ∧
    length X_train = 2 ∧ length y_train = 2.
Proof.
  intros items age inds.
  destruct (@fit_data_aligned TapeSource AscendingIteration nat nat Incremental
              items age 2 [1; 1; 0] 1 (@Cell nat nat Incremental 2 [2] [2]))
    as (X_train & X_test & y_train & y_test & Hbody & HX & Hy & _).
  - simpl. lia.
  - exists X_train, X_test, y_train, y_test. split_and!; [exact Hbody|exact HX|exact Hy].
Defined.

(** ** The cell after the loop *)

Section after_loop.
Context `{SetIteration}.
Context {Row Target : Type} `{!Estimator Row Target}.
Variable items : list Row.
Variable age : list Target.

Lemma fold_body_prefix K inds k c o c' :
  fold_body items age K inds k c = (o, c') →
  train_r2 c `prefix_of` train_r2 c' ∧ test_r2 c `prefix_of` test_r2 c'.
Proof.
  intros Heq. pose proof (fold_body_spec items age K inds k c) as Hs.
  rewrite Heq in Hs. inversion Hs as [|? ? Htr Hte]; subst; simpl.
  - split; by apply prefix_app_r.
  - by rewrite Htr, Hte.
Qed.

End after_loop.

(** X10.  Scores are only ever appended: the score lists as they stand
    after [i] passes are prefixes of the lists after any later pass,
    whether the later passes return or one of them raises. *)
Theorem scores_append_only `{SetIteration}
    {Row Target : Type} `{!Estimator Row Target}
    (items : list Row) (age : list Target) (K : nat) (inds : list nat)
    (i j : nat) :
  i ≤ j →
  train_r2 (after_folds items age K inds i).2
    `prefix_of` train_r2 (after_folds items age K inds j).2 ∧
  test_r2 (after_folds items age K inds i).2
    `prefix_of` test_r2 (after_folds items age K inds j).2.
Proof.
  induction 1 as [|j Hij [IHtr IHte]]; [done|].
  rewrite after_folds_S.
  destruct (after_folds items age K inds j) as [[[]|e] c] eqn:Hj; [|done].
  destruct (fold_body items age K inds j c) as [o c'] eqn:Hbody.
  apply fold_body_prefix in Hbody as [Htr Hte]. simpl in *.
  split; by etrans.
Qed.

Lemma scores_append_only_witness :
  train_r2 (@after_folds AscendingIteration nat nat Strict
              [10; 20; 30] [1; 2; 3] 5 [1; 2; 0] 2).2
    `prefix_of`
  train_r2 (@after_folds AscendingIteration nat nat Strict
              [10; 20; 30] [1; 2; 3] 5 [1; 2; 0] 5).2.
Proof.
  apply (@scores_append_only AscendingIteration nat nat Strict
           [10; 20; 30] [1; 2; 3] 5 [1; 2; 0] 2 5).
  lia.
Defined.

(** X11.  After a run with [K ≥ 1] that ends normally, [est] is the
    estimator as the last pass fitted it: fitted on the train rows of
    fold [K - 1], starting from the estimator the passes before left.
    When there are at least as many rows as folds these are fewer than
    all rows: the cell leaves no estimator fitted on the whole data. *)
Theorem estimator_left_by_last_fold `{RandomSource, SetIteration}
    {Row Target : Type} `{!Estimator Row Target}
    (items : list Row) (age : list Target) (K : nat) (g : Rng) c g' :
  run_cell items age (S K) g = (Return (), c, g') →
  let inds := (shuffled_indices (length items) g).1 in
  ∃ c0 r_train r_test,
    after_folds items age (S K) inds K = (Return (), c0) ∧
    pass_scores items age (S K) inds K (est c0) (est c) r_train r_test ∧
    (S K ≤ length items →
     length (train_indices (S K) K inds) < length items).
Proof.
  unfold run_cell.
  pose proof (index_list_shuffled (length items) g) as Hinds.
  destruct (shuffled_indices (length items) g) as [inds g0]. simpl in *.
  rewrite kfold_loop_after_folds. intros [= Hc _].
  destruct (after_folds_Return_inv _ _ _ _ _ _ Hc) as (c0 & Hc0 & Hbody).
  destruct (fold_body_Return_inv _ _ _ _ _ _ _ Hbody) as (e' & rt & re & Hp & ->).
  exists c0, rt, re. split_and!; [done|done|].
  intros Hn.
  pose proof (train_indices_length (length items) (S K) K inds Hinds ltac:(lia))
    as Hlen.
  assert (0 < length items / S K) by (apply Nat.div_str_pos; lia).
  unfold class_size in Hlen. lia.
Qed.

Lemma estimator_left_by_last_fold_witness :
  ∃ c0 r_train r_test,
    @after_folds AscendingIteration nat nat SampleSize
      [10; 20; 30; 40] [1; 2; 3; 4] 2 [2; 0; 3; 1] 1 = (Return (), c0) ∧
    @pass_scores AscendingIteration nat nat SampleSize
      [10; 20; 30; 40] [1; 2; 3; 4] 2 [2; 0; 3; 1] 1 (est c0) 2 r_train r_test ∧
    (2 ≤ 4 → length (train_indices 2 1 [2; 0; 3; 1]) < 4).
Proof.
  apply (@estimator_left_by_last_fold TapeSource AscendingIteration nat nat
           SampleSize [10; 20; 30; 40] [1; 2; 3; 4] 1 [1; 1; 0]
           (@Cell nat nat SampleSize 2 [4; 4] [4; 4]) []).
  reflexivity.
Defined.

(** ** No rows *)

(** X12.  On data without rows the shuffle draws nothing from the
    generator and the loop still makes its [K] passes, each with an
    empty train list and an empty test list. *)
Theorem folds_of_no_rows `{RandomSource, SetIteration} (K : nat) (g : Rng) :
  shuffled_indices 0 g = ([], g) ∧
  length (fold_sequence 0 K g) = K ∧
  ∀ j tt, fold_sequence 0 K g !! j = Some tt → tt = ([], []).
Proof.
  split_and!; [done|apply kfolds_length|].
  intros j tt [Hj ->]%kfolds_lookup_Some.
  unfold fold_indices, test_indices, test_set. simpl.
  by rewrite difference_diag_L, list_of_set_empty.
Qed.

Lemma folds_of_no_rows_witness :
  @fold_sequence TapeSource AscendingIteration 0 3 [5] !! 1 = Some ([], []) ∧
  (([], []) : list nat * list nat) = ([], []).
Proof.
  destruct (@folds_of_no_rows TapeSource AscendingIteration 3 [5])
    as (_ & _ & Hall).
  split; [reflexivity|]. apply (Hall 1). reflexivity.
Defined.
